(** * BitNet ordered dithering: a shallow embedding of bitnet_dithering.cpp

    The engine of [src/src/bitnet_dithering.cpp] is translated function by
    function.  The C++ [float] type is kept abstract behind the [Scalar]
    interface, which is then instantiated twice: with IEEE-754 binary32
    (the arithmetic the compiled code runs) and with exact rationals (the
    arithmetic the design document reasons in).  Caller-owned buffers are
    lists addressed by an integer offset, so that a read or a write past
    the end of a buffer is visible as a [Fault]; the three file-level
    globals form the [engine] record, threaded by a small state monad. *)

From Stdlib Require Import ZArith QArith Lqa Lia List.
From Stdlib Require Import Floats.SpecFloat.
From stdpp Require Import base list.

Local Open Scope Z_scope.

(** ** Undefined behaviour and the error monad *)

Inductive fault : Set :=
| OutOfBounds      (* a load or store outside the addressed array *)
| DivByZero        (* integer division or remainder by zero *)
| SignedOverflow   (* int arithmetic leaving [INT_MIN, INT_MAX] *)
| BadCast          (* float to int conversion of an unrepresentable value *)
| OutOfFuel.       (* a loop that did not leave within its iteration bound *)

Inductive result (A : Type) : Type :=
| Ok (a : A)
| Fault (f : fault).
Arguments Ok {A} a.
Arguments Fault {A} f.

Definition rbind {A B} (r : result A) (k : A -> result B) : result B :=
  match r with
  | Ok a => k a
  | Fault f => Fault f
  end.

Notation "'let*' x ':=' e 'in' k" := (rbind e (fun x => k))
  (at level 10, x name, e at level 100, k at level 200).

Definition INT_MIN : Z := - 2 ^ 31.
Definition INT_MAX : Z := 2 ^ 31 - 1.

Definition in_int (z : Z) : bool := (INT_MIN <=? z) && (z <=? INT_MAX).

Ltac int_bounds :=
  unfold INT_MIN, INT_MAX in *; change (2 ^ 31) with 2147483648 in *.

Definition checked (z : Z) : result Z :=
  if in_int z then Ok z else Fault SignedOverflow.

(** C++ [/] and [%] on int truncate towards zero. *)
Definition int_div (a b : Z) : result Z :=
  if b =? 0 then Fault DivByZero
  else if (a =? INT_MIN) && (b =? -1) then Fault SignedOverflow
  else Ok (Z.quot a b).

Definition int_rem (a b : Z) : result Z :=
  if b =? 0 then Fault DivByZero else Ok (Z.rem a b).

(** A counted loop [for (int i = i0; i < i0 + n; ++i) s = body(i, s)]. *)
Fixpoint for_range {S : Type} (n : nat) (i : Z)
    (body : Z -> S -> result S) (s : S) : result S :=
  match n with
  | O => Ok s
  | Datatypes.S n' => rbind (body i s) (for_range n' (i + 1) body)
  end.

(** ** The float interface *)

Class Scalar (F : Type) : Type := {
  fadd : F -> F -> F;
  fsub : F -> F -> F;
  fmul : F -> F -> F;
  fdiv : F -> F -> F;
  flt : F -> F -> bool;          (* operator< *)
  of_int : Z -> F;               (* int to float conversion *)
  to_int : F -> option Z;        (* static_cast<int>: truncation *)
  flog2 : F -> F                 (* std::log2 *)
}.

Section Engine.

Context {F : Type} {SF : Scalar F}.

(** A decimal literal [n/d] with small [n] and [d]: the correctly rounded
    quotient, which is what the compiler stores for [0.6f] or [0.05f]. *)
Definition lit (n d : Z) : F := fdiv (of_int n) (of_int d).

Definition f0 : F := of_int 0.

(** [std::min(a, b)] is [(b < a) ? b : a]; [std::max(a, b)] is
    [(a < b) ? b : a]. *)
Definition std_min (a b : F) : F := if flt b a then b else a.
Definition std_max (a b : F) : F := if flt a b then b else a.

(** *** Data model (bitnet_dithering.h) *)

Record BitNetDitheringConfig : Type := {
  enable_dithering : bool;
  dithering_strength : F;
  bayer_matrix_size : Z;
  adaptive_strength : bool;
  resolution_enhancement : bool
}.

Record BitNetDitheringMetrics : Type := {
  inference_speed_ratio : F;
  quality_improvement_ratio : F;
  memory_overhead : F;
  perplexity_improvement : F
}.

Record engine : Type := {
  g_dithering_config : BitNetDitheringConfig;
  g_dithering_metrics : BitNetDitheringMetrics;
  g_dithering_initialized : bool
}.

(** The default member initialisers of the header. *)
Definition default_config : BitNetDitheringConfig :=
  {| enable_dithering := true;
     dithering_strength := lit 1 10;
     bayer_matrix_size := 4;
     adaptive_strength := true;
     resolution_enhancement := true |}.

(** The globals at program start: the config is default-constructed, the
    metrics are zero-initialised statics. *)
Definition engine_at_start : engine :=
  {| g_dithering_config := default_config;
     g_dithering_metrics :=
       {| inference_speed_ratio := f0;
          quality_improvement_ratio := f0;
          memory_overhead := f0;
          perplexity_improvement := f0 |};
     g_dithering_initialized := false |}.

(** *** The Bayer tables *)

Definition BAYER_4X4 : list F :=
  map (fun n => fdiv (of_int n) (of_int 16))
    [ 0;  8;  2; 10;
     12;  4; 14;  6;
      3; 11;  1;  9;
     15;  7; 13;  5].

Definition BAYER_8X8 : list F :=
  map (fun n => fdiv (of_int n) (of_int 64))
    [ 0; 32;  8; 40;  2; 34; 10; 42;
     48; 16; 56; 24; 50; 18; 58; 26;
     12; 44;  4; 36; 14; 46;  6; 38;
     60; 28; 52; 20; 62; 30; 54; 22;
      3; 35; 11; 43;  1; 33;  9; 41;
     49; 17; 57; 25; 51; 19; 59; 27;
     15; 47;  7; 39; 13; 45;  5; 37;
     63; 31; 55; 23; 61; 29; 53; 21].

(** *** Memory: a pointer is an offset into the caller's array *)

Definition load {A} (mem : list A) (p : Z) : result A :=
  if 0 <=? p then
    match mem !! Z.to_nat p with
    | Some x => Ok x
    | None => Fault OutOfBounds
    end
  else Fault OutOfBounds.

Definition store {A} (mem : list A) (p : Z) (x : A) : result (list A) :=
  if (0 <=? p) && (p <? Z.of_nat (length mem))
  then Ok (<[Z.to_nat p := x]> mem)
  else Fault OutOfBounds.

(** *** bitnet_calculate_content_complexity *)

Definition bins : Z := 32.

Definition histogram_step (mem : list F) (weights : Z) (min_val range : F)
    (i : Z) (histogram : list Z) : result (list Z) :=
  let* w := load mem (weights + i) in
  match to_int (fmul (fdiv (fsub w min_val) range) (of_int (bins - 1))) with
  | None => Fault BadCast
  | Some b =>
      let bin := Z.max 0 (Z.min (bins - 1) b) in
      let* count := load histogram bin in
      store histogram bin (count + 1)
  end.

Definition entropy_step (size : Z) (entropy : F) (count : Z) : F :=
  if 0 <? count then
    let p := fdiv (of_int count) (of_int size) in
    fsub entropy (fmul p (flog2 p))
  else entropy.

Definition mean_step (mem : list F) (weights : Z) (i : Z) (mean : F)
    : result F :=
  let* w := load mem (weights + i) in
  Ok (fadd mean w).

Definition variance_step (mem : list F) (weights : Z) (mean : F)
    (i : Z) (variance : F) : result F :=
  let* w := load mem (weights + i) in
  let diff := fsub w mean in
  Ok (fadd variance (fmul diff diff)).

(** The state of the scan is the pair [(min_val, max_val)]. *)
Definition minmax_step (mem : list F) (weights : Z) (i : Z) (mm : F * F)
    : result (F * F) :=
  let* w := load mem (weights + i) in
  Ok (std_min (fst mm) w, std_max (snd mm) w).

Definition bitnet_calculate_content_complexity
    (mem : list F) (weights : Z) (size : Z) : result F :=
  if size <=? 0 then Ok f0 else
  let n := Z.to_nat size in
  let* sum := for_range n 0 (mean_step mem weights) f0 in
  let mean := fdiv sum (of_int size) in
  let* sq := for_range n 0 (variance_step mem weights mean) f0 in
  let variance := fdiv sq (of_int size) in
  let* w0 := load mem weights in
  let* mm := for_range (Z.to_nat (size - 1)) 1 (minmax_step mem weights)
               (w0, w0) in
  let min_val := fst mm in
  let max_val := snd mm in
  let range := fsub max_val min_val in
  let* histogram :=
    (if flt f0 range
     then for_range n 0 (histogram_step mem weights min_val range)
            (replicate (Z.to_nat bins) 0)
     else Ok (replicate (Z.to_nat bins) 0)) in
  let entropy := fold_left (entropy_step size) histogram f0 in
  Ok (fadd (fmul variance (lit 6 10)) (fmul entropy (lit 4 10))).

(** *** bitnet_ordered_dither *)

Definition dither_step (data : Z) (bayer_matrix : list F) (matrix_size : Z)
    (strength : F) (i : Z) (mem : list F) : result (list F) :=
  let* q := int_div i matrix_size in
  let* row := int_rem q matrix_size in
  let* col := int_rem i matrix_size in
  let bayer_idx := row * matrix_size + col in
  let* t := load bayer_matrix bayer_idx in
  let noise := fmul (fsub t (lit 5 10)) strength in
  let* x := load mem (data + i) in
  store mem (data + i) (fadd x noise).

Definition bitnet_ordered_dither (mem : list F) (data : Z) (size : Z)
    (bayer_matrix : list F) (matrix_size : Z) (strength : F)
    : result (list F) :=
  let* matrix_area := checked (matrix_size * matrix_size) in
  for_range (Z.to_nat size) 0
    (dither_step data bayer_matrix matrix_size strength) mem.

(** *** The state monad over the globals *)

Definition M (A : Type) : Type := engine -> engine * result A.

Definition ret {A} (a : A) : M A := fun st => (st, Ok a).

Definition bind {A B} (m : M A) (k : A -> M B) : M B :=
  fun st =>
    match m st with
    | (st', Ok a) => k a st'
    | (st', Fault f) => (st', Fault f)
    end.

Definition lift {A} (r : result A) : M A := fun st => (st, r).

Definition gets {A} (proj : engine -> A) : M A := fun st => (st, Ok (proj st)).

Definition put (st' : engine) : M unit := fun _ => (st', Ok tt).

Notation "'let!' x ':=' e 'in' k" := (bind e (fun x => k))
  (at level 10, x name, e at level 100, k at level 200).

(** *** bitnet_dithering_init, bitnet_dithering_cleanup *)

Definition bitnet_dithering_init : M unit :=
  let! initialized := gets g_dithering_initialized in
  if initialized then ret tt else
  put {| g_dithering_config :=
           {| enable_dithering := true;
              dithering_strength := lit 1 10;
              bayer_matrix_size := 4;
              adaptive_strength := true;
              resolution_enhancement := true |};
         g_dithering_metrics :=
           {| inference_speed_ratio := lit 1 1;
              quality_improvement_ratio := f0;
              memory_overhead := f0;
              perplexity_improvement := f0 |};
         g_dithering_initialized := true |}.

Definition bitnet_dithering_cleanup : M unit :=
  fun st =>
    ({| g_dithering_config := g_dithering_config st;
        g_dithering_metrics := g_dithering_metrics st;
        g_dithering_initialized := false |}, Ok tt).

(** *** bitnet_should_apply_dithering *)

Definition bitnet_should_apply_dithering (mem : list F) (weights : Z)
    (size : Z) : M bool :=
  let! initialized := gets g_dithering_initialized in
  let! config := gets g_dithering_config in
  if negb initialized || negb (enable_dithering config) then ret false else
  let! complexity :=
    lift (bitnet_calculate_content_complexity mem weights size) in
  ret (flt (lit 2 100) complexity).

(** *** bitnet_calculate_adaptive_strength *)

Definition bitnet_calculate_adaptive_strength (mem : list F) (weights : Z)
    (size : Z) : M F :=
  let! config := gets g_dithering_config in
  if negb (adaptive_strength config) then ret (dithering_strength config) else
  let! complexity :=
    lift (bitnet_calculate_content_complexity mem weights size) in
  let! config' := gets g_dithering_config in
  let base_strength := dithering_strength config' in
  let adaptive_factor :=
    fadd (lit 1 1) (fmul (fsub complexity (lit 1 10)) (lit 2 1)) in
  let adaptive_factor :=
    std_max (lit 5 10) (std_min (lit 2 1) adaptive_factor) in
  ret (fmul base_strength adaptive_factor).

(** *** bitnet_apply_ordered_dithering

    [config] is a pointer: [None] is the null pointer.  The result is the
    caller's array after the call. *)

Definition bitnet_apply_ordered_dithering (mem : list F) (weights : Z)
    (size : Z) (layer_idx : Z) (config : option BitNetDitheringConfig)
    : M (list F) :=
  match config with
  | None => ret mem
  | Some config =>
      if negb (enable_dithering config) then ret mem else
      let! strength :=
        (if adaptive_strength config
         then bitnet_calculate_adaptive_strength mem weights size
         else ret (dithering_strength config)) in
      if bayer_matrix_size config =? 8
      then lift (bitnet_ordered_dither mem weights size BAYER_8X8 8 strength)
      else lift (bitnet_ordered_dither mem weights size BAYER_4X4 4 strength)
  end.

(** *** bitnet_apply_resolution_dithering *)

Definition bitnet_apply_resolution_dithering (mem : list F) (weights : Z)
    (size : Z) (layer_idx : Z) (scale : F) : M (list F) :=
  let! initialized := gets g_dithering_initialized in
  let! g := gets g_dithering_config in
  if negb initialized || negb (resolution_enhancement g) then ret mem else
  let config :=
    {| enable_dithering := enable_dithering g;
       dithering_strength := scale;
       bayer_matrix_size := 8;
       adaptive_strength := adaptive_strength g;
       resolution_enhancement := resolution_enhancement g |} in
  bitnet_apply_ordered_dithering mem weights size layer_idx (Some config).

(** *** bitnet_enhance_resolution_dithering

    The loop [for (int i = 0; i < size; i += elements_per_token)].  With a
    positive stride it leaves after at most [size] rounds, which is the
    fuel the caller passes; with a negative stride [i] only decreases and
    the fuel runs out. *)

Fixpoint enhance_loop (fuel : nat) (mem : list F) (activations : Z)
    (i size elements_per_token : Z) (config : BitNetDitheringConfig)
    : M (list F) :=
  if i <? size then
    match fuel with
    | O => lift (Fault OutOfFuel)
    | S fuel' =>
        let! mem' :=
          bitnet_apply_ordered_dithering mem (activations + i)
            elements_per_token 0 (Some config) in
        let! i' := lift (checked (i + elements_per_token)) in
        enhance_loop fuel' mem' activations i' size elements_per_token config
    end
  else ret mem.

Definition bitnet_enhance_resolution_dithering (mem : list F)
    (activations : Z) (size sequence_length hidden_size : Z) : M (list F) :=
  let! initialized := gets g_dithering_initialized in
  let! g := gets g_dithering_config in
  if negb initialized || negb (resolution_enhancement g) then ret mem else
  let elements_per_token := hidden_size in
  let! total_tokens := lift (int_div size elements_per_token) in
  if total_tokens =? sequence_length then
    let config :=
      {| enable_dithering := enable_dithering g;
         dithering_strength := lit 5 100;
         bayer_matrix_size := 8;
         adaptive_strength := adaptive_strength g;
         resolution_enhancement := resolution_enhancement g |} in
    enhance_loop (Z.to_nat size) mem activations 0 size elements_per_token
      config
  else
    let! g' := gets g_dithering_config in
    bitnet_apply_ordered_dithering mem activations size 0 (Some g').

(** *** bitnet_set_dithering_config and the getters *)

Definition bitnet_set_dithering_config
    (config : option BitNetDitheringConfig) : M unit :=
  match config with
  | Some c =>
      fun st =>
        ({| g_dithering_config := c;
            g_dithering_metrics := g_dithering_metrics st;
            g_dithering_initialized := g_dithering_initialized st |}, Ok tt)
  | None => ret tt
  end.

Definition bitnet_get_dithering_config : M BitNetDitheringConfig :=
  gets g_dithering_config.

Definition bitnet_get_dithering_metrics : M BitNetDitheringMetrics :=
  gets g_dithering_metrics.

End Engine.

Arguments BitNetDitheringConfig F : clear implicits.
Arguments BitNetDitheringMetrics F : clear implicits.
Arguments engine F : clear implicits.
Arguments M F A : clear implicits.

(** ** Two arithmetics

    [std::log2] has no counterpart in either arithmetic below; both
    instances take it as a parameter and every theorem holds for all of
    its values. *)

(** *** Exact rationals *)

Definition Q_to_int (q : Q) : option Z :=
  let z := Z.quot (Qnum q) (Zpos (Qden q)) in
  if in_int z then Some z else None.

Definition Q_lt (a b : Q) : bool :=
  match Qcompare a b with
  | Lt => true
  | _ => false
  end.

Definition Q_scalar (lg : Q -> Q) : Scalar Q := {|
  fadd := Qplus;
  fsub := Qminus;
  fmul := Qmult;
  fdiv := Qdiv;
  flt := Q_lt;
  of_int := inject_Z;
  to_int := Q_to_int;
  flog2 := lg
|}.

(** *** IEEE-754 binary32, round to nearest even *)

Definition b32_prec : Z := 24.
Definition b32_emax : Z := 128.

Definition b32_to_int (x : spec_float) : option Z :=
  match x with
  | S754_zero _ => Some 0
  | S754_finite s m e =>
      let a := if 0 <=? e then Zpos m * 2 ^ e else Zpos m / 2 ^ (- e) in
      let z := if s then - a else a in
      if in_int z then Some z else None
  | S754_infinity _ => None
  | S754_nan => None
  end.

Definition b32_scalar (lg : spec_float -> spec_float)
    : Scalar spec_float := {|
  fadd := SFadd b32_prec b32_emax;
  fsub := SFsub b32_prec b32_emax;
  fmul := SFmul b32_prec b32_emax;
  fdiv := SFdiv b32_prec b32_emax;
  flt := SFltb;
  of_int := fun z => binary_normalize b32_prec b32_emax z 0 false;
  to_int := b32_to_int;
  flog2 := lg
|}.

(** *** A concrete [log2] for closed examples

    Exact on powers of two (the only arguments where [log2] is rational),
    the floor of the logarithm elsewhere. *)

Definition Q_log2_dyadic (q : Q) : Q :=
  inject_Z (Z.log2 (Qnum q)) - inject_Z (Z.log2 (Zpos (Qden q))).

Definition b32_log2_dyadic (x : spec_float) : spec_float :=
  match x with
  | S754_zero _ => S754_infinity true
  | S754_infinity false => S754_infinity false
  | S754_finite false m e =>
      binary_normalize b32_prec b32_emax (Z.log2 (Zpos m) + e) 0 false
  | _ => S754_nan
  end.

Definition Qx : Scalar Q := Q_scalar Q_log2_dyadic.
Definition B32 : Scalar spec_float := b32_scalar b32_log2_dyadic.

(** ** Vocabulary of the statements

    What the operations are proved to compute, written without loops. *)

Section Vocabulary.

Context {F : Type} {SF : Scalar F}.

Definition preserves {A} (m : M F A) : Prop := forall st, fst (m st) = st.

(** The table entry the source reads for flat index [i]. *)
Definition bayer_index (matrix_size i : Z) : Z :=
  Z.rem (Z.quot i matrix_size) matrix_size * matrix_size + Z.rem i matrix_size.

(** The noise the pattern tiling gives to the element at distance [i] from
    the start of the dithered range. *)
Definition tile_noise (table : list F) (strength : F) (i : Z) : F :=
  fmul
    (fsub (default f0 (table !! Z.to_nat (i mod Z.of_nat (length table))))
       (lit 5 10))
    strength.

(** The array after dithering the [size] elements that start at [data]. *)
Definition dithered (table : list F) (strength : F) (data size : Z)
    (mem : list F) : list F :=
  imap (fun j x =>
          if bool_decide (data <= Z.of_nat j < data + size)
          then fadd x (tile_noise table strength (Z.of_nat j - data))
          else x) mem.

(** The array after each [stride]-sized segment of [size] elements from
    [data] on has been dithered with the pattern restarted. *)
Definition segment_dithered (table : list F) (strength : F)
    (data size stride : Z) (mem : list F) : list F :=
  imap (fun j x =>
          if bool_decide (data <= Z.of_nat j < data + size)
          then fadd x
                 (tile_noise table strength ((Z.of_nat j - data) mod stride))
          else x) mem.

(** The table and its side, as the configured entry point selects them. *)
Definition selected_table (config : BitNetDitheringConfig F) : list F :=
  if bayer_matrix_size config =? 8 then BAYER_8X8 else BAYER_4X4.

Definition selected_size (config : BitNetDitheringConfig F) : Z :=
  if bayer_matrix_size config =? 8 then 8 else 4.

End Vocabulary.

Definition with_initialized {F : Type} (flag : bool) (st : engine F)
    : engine F :=
  {| g_dithering_config := g_dithering_config st;
     g_dithering_metrics := g_dithering_metrics st;
     g_dithering_initialized := flag |}.

(** The engine after [bitnet_dithering_init], and the buffers, configs and
    engines of the closed examples. *)
Definition engine_after_init {F : Type} {SF : Scalar F} : engine F :=
  fst (bitnet_dithering_init engine_at_start).

Definition ones {F : Type} {SF : Scalar F} (n : nat) : list F :=
  replicate n (lit 1 1).

Definition fixed_config {F : Type} {SF : Scalar F} (strength : F)
    (pattern : Z) : BitNetDitheringConfig F :=
  {| enable_dithering := true;
     dithering_strength := strength;
     bayer_matrix_size := pattern;
     adaptive_strength := false;
     resolution_enhancement := true |}.

Definition fixed_engine {F : Type} {SF : Scalar F} : engine F :=
  fst (bitnet_set_dithering_config (Some (fixed_config (lit 1 10) 4))
         engine_after_init).

Definition disabled_engine {F : Type} {SF : Scalar F} : engine F :=
  {| g_dithering_config :=
       {| enable_dithering := false;
          dithering_strength := lit 1 10;
          bayer_matrix_size := 4;
          adaptive_strength := false;
          resolution_enhancement := true |};
     g_dithering_metrics := g_dithering_metrics engine_after_init;
     g_dithering_initialized := true |}.

(** *** Exact arithmetic *)

Definition Qsum (l : list Q) : Q := fold_right Qplus 0%Q l.

Definition Qmean (l : list Q) : Q :=
  (Qsum l / inject_Z (Z.of_nat (length l)))%Q.

(** [clamp(x, lo, hi)] as the design document writes it. *)
Definition Qclamp (x lo hi : Q) : Q :=
  if Qlt_le_dec x lo then lo else if Qlt_le_dec hi x then hi else x.

(** The deviation from one half of the table entry used at index [j]. *)
Definition tile_bias (table : list Q) (j : nat) : Q :=
  (default 0 (table !! Z.to_nat (Z.of_nat j mod Z.of_nat (length table)))
   - inject_Z 5 / inject_Z 10)%Q.

(** After the scan every element of the range lies between the two
    extremes. *)
Definition encloses (mem : list Q) (weights : Z) (j : Z) (mm : Q * Q)
    : Prop :=
  forall k x, 0 <= k < j -> mem !! Z.to_nat (weights + k) = Some x ->
              (fst mm <= x <= snd mm)%Q.

(** ** Loops and memory *)

Lemma for_range_invariant {T : Type} (P : Z -> T -> Prop)
    (body : Z -> T -> result T) :
  forall (n : nat) (i : Z) (s : T),
    P i s ->
    (forall j t, i <= j < i + Z.of_nat n -> P j t ->
                 exists t', body j t = Ok t' /\ P (j + 1) t') ->
    exists s', for_range n i body s = Ok s' /\ P (i + Z.of_nat n) s'.
Proof.
  induction n as [|n IH]; intros i s Hs Hbody.
  - exists s. split; [reflexivity|]. now rewrite Z.add_0_r.
  - destruct (Hbody i s) as [t [Ht HP]]; [lia|assumption|].
    destruct (IH (i + 1) t HP) as [s' [Hrun Hs']].
    { intros j u Hj. apply Hbody. lia. }
    exists s'. cbn [for_range]. rewrite Ht. cbn [rbind].
    split; [assumption|].
    now replace (i + Z.of_nat (S n)) with (i + 1 + Z.of_nat n) by lia.
Qed.

Lemma load_Some {A} (mem : list A) p x :
  0 <= p -> mem !! Z.to_nat p = Some x -> load mem p = Ok x.
Proof.
  intros Hp Hx. unfold load.
  destruct (Z.leb_spec 0 p); [|lia]. now rewrite Hx.
Qed.

Lemma store_Some {A} (mem : list A) p x :
  0 <= p < Z.of_nat (length mem) ->
  store mem p x = Ok (<[Z.to_nat p := x]> mem).
Proof.
  intros Hp. unfold store.
  destruct (Z.leb_spec 0 p); [|lia].
  destruct (Z.ltb_spec p (Z.of_nat (length mem))); [done|lia].
Qed.

Lemma load_in_bounds {A} (mem : list A) (p : Z) :
  0 <= p < Z.of_nat (length mem) ->
  exists x, mem !! Z.to_nat p = Some x /\ load mem p = Ok x.
Proof.
  intros Hp.
  destruct (lookup_lt_is_Some_2 mem (Z.to_nat p)) as [x Hx]; [lia|].
  exists x. split; [assumption|]. apply load_Some; [lia|assumption].
Qed.

(** ** Frame: which operations write the globals *)

Section Frame.

Context {F : Type} {SF : Scalar F}.

Lemma preserves_ret {A} (a : A) : preserves (F:=F) (ret a).
Proof. intros st. reflexivity. Qed.

Lemma preserves_lift {A} (r : result A) : preserves (F:=F) (lift r).
Proof. intros st. reflexivity. Qed.

Lemma preserves_gets {A} (proj : engine F -> A) : preserves (gets proj).
Proof. intros st. reflexivity. Qed.

Lemma preserves_bind {A B} (m : M F A) (k : A -> M F B) :
  preserves m -> (forall a, preserves (k a)) -> preserves (bind m k).
Proof.
  intros Hm Hk st. unfold bind.
  specialize (Hm st). destruct (m st) as [st' [a|f]]; simpl in *; subst.
  - apply Hk.
  - reflexivity.
Qed.

Lemma preserves_if {A} (b : bool) (m1 m2 : M F A) :
  preserves m1 -> preserves m2 -> preserves (if b then m1 else m2).
Proof. destruct b; auto. Qed.

Create HintDb frame.
#[local] Hint Resolve preserves_ret preserves_lift preserves_gets
  preserves_bind preserves_if : frame.

Lemma preserves_should_apply mem weights size :
  preserves (bitnet_should_apply_dithering mem weights size).
Proof. unfold bitnet_should_apply_dithering. auto 10 with frame. Qed.

Lemma preserves_adaptive_strength mem weights size :
  preserves (bitnet_calculate_adaptive_strength mem weights size).
Proof. unfold bitnet_calculate_adaptive_strength. auto 10 with frame. Qed.

Lemma preserves_apply_ordered mem weights size layer_idx config :
  preserves (bitnet_apply_ordered_dithering mem weights size layer_idx config).
Proof.
  unfold bitnet_apply_ordered_dithering.
  destruct config as [c|]; auto with frame.
  apply preserves_if; auto with frame.
  apply preserves_bind.
  - apply preserves_if; auto using preserves_adaptive_strength with frame.
  - intros strength. apply preserves_if; auto with frame.
Qed.

Lemma preserves_apply_resolution mem weights size layer_idx scale :
  preserves
    (bitnet_apply_resolution_dithering mem weights size layer_idx scale).
Proof.
  unfold bitnet_apply_resolution_dithering.
  auto 10 using preserves_apply_ordered with frame.
Qed.

Lemma preserves_enhance_loop fuel : forall mem activations i size ept config,
  preserves (enhance_loop fuel mem activations i size ept config).
Proof.
  induction fuel as [|fuel IH]; intros; cbn [enhance_loop];
    apply preserves_if; auto with frame.
  apply preserves_bind; [apply preserves_apply_ordered|intros mem'].
  apply preserves_bind; [apply preserves_lift|intros i']. apply IH.
Qed.

Lemma preserves_enhance mem activations size sequence_length hidden_size :
  preserves
    (bitnet_enhance_resolution_dithering mem activations size
       sequence_length hidden_size).
Proof.
  unfold bitnet_enhance_resolution_dithering.
  auto 12 using preserves_apply_ordered, preserves_enhance_loop with frame.
Qed.

End Frame.

(** ** What one pass of the applicator writes *)

Section Dither.

Context {F : Type} {SF : Scalar F}.

Lemma bayer_index_mod ms i :
  0 <= i -> 0 < ms -> bayer_index ms i = i mod (ms * ms).
Proof.
  intros Hi Hms. unfold bayer_index.
  assert (0 <= i / ms) by (apply Z.div_pos; lia).
  rewrite Z.quot_div_nonneg, !Z.rem_mod_nonneg by lia.
  rewrite (Z.rem_mul_r i ms ms) by lia. lia.
Qed.

Lemma length_dithered table strength data size mem :
  length (dithered table strength data size mem) = length mem.
Proof. unfold dithered. apply length_imap. Qed.

Lemma dithered_empty table strength data size mem :
  size <= 0 -> dithered table strength data size mem = mem.
Proof.
  intros Hs. apply list_eq. intros j. unfold dithered.
  rewrite list_lookup_imap. destruct (mem !! j); simpl; [|done].
  case_bool_decide; [lia|done].
Qed.

Lemma dither_step_ok table ms strength data i mem x :
  0 < ms -> Z.of_nat (length table) = ms * ms ->
  0 <= i -> 0 <= data ->
  mem !! Z.to_nat (data + i) = Some x ->
  dither_step data table ms strength i mem
  = Ok (<[Z.to_nat (data + i) := fadd x (tile_noise table strength i)]> mem).
Proof.
  intros Hms Hlen Hi Hdata Hx. unfold dither_step, int_div, int_rem.
  destruct (Z.eqb_spec ms 0); [lia|].
  destruct (Z.eqb_spec ms (-1)); [lia|].
  rewrite andb_false_r. cbn [rbind].
  fold (bayer_index ms i). rewrite bayer_index_mod by lia.
  assert (0 <= i mod (ms * ms) < ms * ms) as Hidx
    by (apply Z.mod_pos_bound; nia).
  destruct (lookup_lt_is_Some_2 table (Z.to_nat (i mod (ms * ms))))
    as [t Ht]; [lia|].
  rewrite (load_Some table _ t) by (done || lia). cbn [rbind].
  rewrite (load_Some mem _ x) by (done || lia). cbn [rbind].
  rewrite store_Some
    by (apply lookup_lt_Some in Hx; lia).
  unfold tile_noise. rewrite Hlen, Ht. reflexivity.
Qed.

Lemma dither_loop_ok table ms strength data :
  0 < ms -> Z.of_nat (length table) = ms * ms -> 0 <= data ->
  forall n i mem,
    0 <= i -> data + i + Z.of_nat n <= Z.of_nat (length mem) ->
    for_range n i (dither_step data table ms strength) mem
    = Ok (imap (fun j x =>
                  if bool_decide
                       (data + i <= Z.of_nat j < data + i + Z.of_nat n)
                  then fadd x (tile_noise table strength (Z.of_nat j - data))
                  else x) mem).
Proof.
  intros Hms Hlen Hdata. induction n as [|n IH]; intros i mem Hi Hfit.
  - cbn [for_range]. f_equal. apply list_eq. intros j.
    rewrite list_lookup_imap. destruct (mem !! j); simpl; [|done].
    case_bool_decide; [lia|done].
  - cbn [for_range].
    destruct (lookup_lt_is_Some_2 mem (Z.to_nat (data + i))) as [x Hx]; [lia|].
    rewrite (dither_step_ok _ _ _ _ _ _ x) by assumption. cbn [rbind].
    rewrite IH by (rewrite ?length_insert; lia).
    f_equal. apply list_eq. intros j.
    rewrite !list_lookup_imap, list_lookup_insert.
    case_decide as Hj.
    + destruct Hj as [<- _]. rewrite Hx. simpl.
      rewrite bool_decide_eq_false_2 by lia.
      rewrite bool_decide_eq_true_2 by lia.
      do 3 f_equal. lia.
    + destruct (mem !! j) eqn:Hmj; simpl; [|done].
      assert (Z.to_nat (data + i) <> j) as Hne.
      { intros <-. apply Hj. split; [done|]. now apply lookup_lt_Some in Hx. }
      repeat case_bool_decide; try done; lia.
Qed.

Lemma ordered_dither_ok mem data size table ms strength :
  0 < ms -> in_int (ms * ms) = true -> Z.of_nat (length table) = ms * ms ->
  0 <= data -> 0 <= size -> data + size <= Z.of_nat (length mem) ->
  bitnet_ordered_dither mem data size table ms strength
  = Ok (dithered table strength data size mem).
Proof.
  intros Hms Harea Hlen Hdata Hsize Hfit.
  unfold bitnet_ordered_dither, checked. rewrite Harea. cbn [rbind].
  rewrite (dither_loop_ok table ms strength data) by lia.
  unfold dithered. f_equal. apply imap_ext. intros j x _.
  rewrite Z2Nat.id by lia. rewrite Z.add_0_r. reflexivity.
Qed.

(** Running over the end: the first element past the array stops the
    pass. *)
Lemma dither_step_overrun table ms strength data i mem :
  0 < ms -> Z.of_nat (length table) = ms * ms ->
  0 <= i -> 0 <= data -> Z.of_nat (length mem) <= data + i ->
  dither_step data table ms strength i mem = Fault OutOfBounds.
Proof.
  intros Hms Hlen Hi Hdata Hend. unfold dither_step, int_div, int_rem.
  destruct (Z.eqb_spec ms 0); [lia|].
  destruct (Z.eqb_spec ms (-1)); [lia|].
  rewrite andb_false_r. cbn [rbind].
  fold (bayer_index ms i). rewrite bayer_index_mod by lia.
  assert (0 <= i mod (ms * ms) < ms * ms) as Hidx
    by (apply Z.mod_pos_bound; nia).
  destruct (lookup_lt_is_Some_2 table (Z.to_nat (i mod (ms * ms))))
    as [t Ht]; [lia|].
  rewrite (load_Some table _ t) by (done || lia). cbn [rbind].
  unfold load. destruct (Z.leb_spec 0 (data + i)); [|lia].
  rewrite (lookup_ge_None_2 mem (Z.to_nat (data + i))) by lia.
  reflexivity.
Qed.

Lemma dither_loop_overrun table ms strength data :
  0 < ms -> Z.of_nat (length table) = ms * ms -> 0 <= data ->
  forall n i mem,
    0 <= i -> data + i <= Z.of_nat (length mem) < data + i + Z.of_nat n ->
    for_range n i (dither_step data table ms strength) mem
    = Fault OutOfBounds.
Proof.
  intros Hms Hlen Hdata. induction n as [|n IH]; intros i mem Hi Hfit.
  - lia.
  - cbn [for_range].
    destruct (Z.eq_dec (data + i) (Z.of_nat (length mem))) as [Heq|Hne].
    + now rewrite dither_step_overrun by lia.
    + destruct (lookup_lt_is_Some_2 mem (Z.to_nat (data + i))) as [x Hx];
        [lia|].
      rewrite (dither_step_ok _ _ _ _ _ _ x) by assumption. cbn [rbind].
      apply IH; rewrite ?length_insert; lia.
Qed.

Lemma ordered_dither_overrun mem data size table ms strength :
  0 < ms -> in_int (ms * ms) = true -> Z.of_nat (length table) = ms * ms ->
  0 <= data <= Z.of_nat (length mem) -> Z.of_nat (length mem) < data + size ->
  bitnet_ordered_dither mem data size table ms strength
  = Fault OutOfBounds.
Proof.
  intros Hms Harea Hlen Hdata Hover.
  unfold bitnet_ordered_dither, checked. rewrite Harea. cbn [rbind].
  apply (dither_loop_overrun table ms strength data); lia.
Qed.

(** With [size <= 0] the loop body is never entered. *)
Lemma ordered_dither_empty mem data size table ms strength :
  in_int (ms * ms) = true -> size <= 0 ->
  bitnet_ordered_dither mem data size table ms strength = Ok mem.
Proof.
  intros Harea Hsize. unfold bitnet_ordered_dither, checked.
  rewrite Harea. cbn [rbind].
  replace (Z.to_nat size) with O by lia. reflexivity.
Qed.

End Dither.

(** ** The configured entry point and the per-token loop *)

Section Dispatch.

Context {F : Type} {SF : Scalar F}.

Lemma length_BAYER_4X4 : Z.of_nat (length (BAYER_4X4 (F:=F))) = 4 * 4.
Proof. reflexivity. Qed.

Lemma length_BAYER_8X8 : Z.of_nat (length (BAYER_8X8 (F:=F))) = 8 * 8.
Proof. reflexivity. Qed.

Lemma apply_ordered_unfold mem weights size layer_idx config st :
  enable_dithering config = true ->
  bitnet_apply_ordered_dithering mem weights size layer_idx (Some config) st
  = bind (if adaptive_strength config
          then bitnet_calculate_adaptive_strength mem weights size
          else ret (dithering_strength config))
      (fun strength =>
         lift (bitnet_ordered_dither mem weights size (selected_table config)
                 (selected_size config) strength)) st.
Proof.
  intros He. unfold bitnet_apply_ordered_dithering, selected_table,
    selected_size. rewrite He. cbn [negb].
  unfold bind. destruct (if adaptive_strength config then _ else _) as [st' [s|f]];
    [|done]. now destruct (bayer_matrix_size config =? 8).
Qed.

(** A fixed-strength pass within bounds: the array is [dithered]. *)
Lemma apply_ordered_fixed mem weights size layer_idx config st :
  enable_dithering config = true -> adaptive_strength config = false ->
  0 <= weights -> 0 <= size -> weights + size <= Z.of_nat (length mem) ->
  bitnet_apply_ordered_dithering mem weights size layer_idx (Some config) st
  = (st, Ok (dithered (selected_table config) (dithering_strength config)
               weights size mem)).
Proof.
  intros He Ha Hw Hs Hfit. rewrite apply_ordered_unfold by done.
  rewrite Ha. unfold bind, ret, lift, selected_table, selected_size.
  destruct (bayer_matrix_size config =? 8).
  - now rewrite (ordered_dither_ok mem weights size BAYER_8X8 8) by (done || lia).
  - now rewrite (ordered_dither_ok mem weights size BAYER_4X4 4) by (done || lia).
Qed.

Lemma enhance_loop_ok config st activations size stride :
  enable_dithering config = true -> adaptive_strength config = false ->
  0 <= activations -> 0 < stride -> size <= INT_MAX ->
  forall (k fuel : nat) i mem,
    (k <= fuel)%nat -> 0 <= i -> size = i + Z.of_nat k * stride ->
    activations + size <= Z.of_nat (length mem) ->
    enhance_loop fuel mem activations i size stride config st
    = (st, Ok (segment_dithered (selected_table config)
                 (dithering_strength config) (activations + i) (size - i)
                 stride mem)).
Proof.
  intros He Ha Hact Hstride Hmax.
  induction k as [|k IH]; intros fuel i mem Hfuel Hi Hsize Hfit.
  - assert ((i <? size) = false) as Hlt by (apply Z.ltb_ge; lia).
    destruct fuel; cbn [enhance_loop]; rewrite Hlt; unfold ret;
      do 2 f_equal; apply list_eq; intros j; unfold segment_dithered;
      rewrite list_lookup_imap; destruct (mem !! j); simpl; try done;
      case_bool_decide; first [lia|done].
  - destruct fuel as [|fuel]; [lia|]. cbn [enhance_loop].
    rewrite Nat2Z.inj_succ in Hsize.
    assert (0 <= Z.of_nat k * stride) as Hrest by nia.
    assert ((i <? size) = true) as Hlt by (apply Z.ltb_lt; lia).
    rewrite Hlt. unfold bind at 1.
    rewrite apply_ordered_fixed; try done; try lia.
    unfold bind, lift, checked, in_int.
    assert ((INT_MIN <=? i + stride) && (i + stride <=? INT_MAX) = true)
      as Hin.
    { apply andb_true_iff. split; apply Z.leb_le; int_bounds; lia. }
    rewrite Hin.
    rewrite IH by (rewrite ?length_dithered; lia).
    do 2 f_equal. apply list_eq. intros j.
    unfold segment_dithered, dithered.
    rewrite !list_lookup_imap. destruct (mem !! j) as [x|]; simpl; [|done].
    f_equal. repeat case_bool_decide; try lia; try reflexivity.
    + do 2 f_equal.
      replace (Z.of_nat j - (activations + i))
        with (Z.of_nat j - (activations + (i + stride)) + 1 * stride) by lia.
      now rewrite Z.mod_add by lia.
    + rewrite Z.mod_small by lia. reflexivity.
Qed.

(** With a config whose enable_dithering is off every round returns at the
    guard, and the loop only counts. *)
Lemma enhance_loop_disabled config st activations size stride :
  enable_dithering config = false -> 0 < stride -> size <= INT_MAX ->
  forall (k fuel : nat) i mem,
    (k <= fuel)%nat -> 0 <= i -> size = i + Z.of_nat k * stride ->
    enhance_loop fuel mem activations i size stride config st
    = (st, Ok mem).
Proof.
  intros He Hstride Hmax.
  induction k as [|k IH]; intros fuel i mem Hfuel Hi Hsize.
  - assert ((i <? size) = false) as Hlt by (apply Z.ltb_ge; lia).
    destruct fuel; cbn [enhance_loop]; now rewrite Hlt.
  - destruct fuel as [|fuel]; [lia|]. cbn [enhance_loop].
    rewrite Nat2Z.inj_succ in Hsize.
    assert (0 <= Z.of_nat k * stride) as Hrest by nia.
    assert ((i <? size) = true) as -> by (apply Z.ltb_lt; lia).
    unfold bind at 1. unfold bitnet_apply_ordered_dithering at 1.
    rewrite He. cbn [negb]. unfold ret at 1.
    unfold bind, lift, checked, in_int.
    assert ((INT_MIN <=? i + stride) && (i + stride <=? INT_MAX) = true)
      as ->.
    { apply andb_true_iff. split; apply Z.leb_le; int_bounds; lia. }
    apply IH; lia.
Qed.

Lemma apply_ordered_fixed_overrun mem weights size layer_idx config st :
  enable_dithering config = true -> adaptive_strength config = false ->
  0 <= weights <= Z.of_nat (length mem) ->
  Z.of_nat (length mem) < weights + size ->
  bitnet_apply_ordered_dithering mem weights size layer_idx (Some config) st
  = (st, Fault OutOfBounds).
Proof.
  intros He Ha Hw Hover. rewrite apply_ordered_unfold by done.
  rewrite Ha. unfold bind, ret, lift, selected_table, selected_size.
  destruct (bayer_matrix_size config =? 8).
  - now rewrite (ordered_dither_overrun mem weights size BAYER_8X8 8)
      by (done || lia).
  - now rewrite (ordered_dither_overrun mem weights size BAYER_4X4 4)
      by (done || lia).
Qed.

(** [k] full segments fit, then a remainder shorter than the stride is
    left: the round after the last full segment runs past the array. *)
Lemma enhance_loop_overrun config st activations size stride :
  enable_dithering config = true -> adaptive_strength config = false ->
  0 <= activations -> 0 < stride -> size <= INT_MAX ->
  forall (k fuel : nat) i mem,
    (k < fuel)%nat -> 0 <= i ->
    i + Z.of_nat k * stride < size < i + (Z.of_nat k + 1) * stride ->
    activations + size = Z.of_nat (length mem) ->
    enhance_loop fuel mem activations i size stride config st
    = (st, Fault OutOfBounds).
Proof.
  intros He Ha Hact Hstride Hmax.
  induction k as [|k IH]; intros fuel i mem Hfuel Hi Hsize Hfit;
    (destruct fuel as [|fuel]; [lia|]); cbn [enhance_loop].
  - assert ((i <? size) = true) as -> by (apply Z.ltb_lt; lia).
    unfold bind.
    rewrite apply_ordered_fixed_overrun; try done; lia.
  - rewrite Nat2Z.inj_succ in Hsize.
    assert (0 <= Z.of_nat k * stride) as Hrest by nia.
    assert ((i <? size) = true) as -> by (apply Z.ltb_lt; lia).
    unfold bind at 1.
    rewrite apply_ordered_fixed; try done; try lia.
    unfold bind, lift, checked, in_int.
    assert ((INT_MIN <=? i + stride) && (i + stride <=? INT_MAX) = true)
      as ->.
    { apply andb_true_iff. split; apply Z.leb_le; int_bounds; lia. }
    apply IH; rewrite ?length_dithered; lia.
Qed.

(** Any size that leaves a remainder: with an enabled, non-adaptive global
    config and a buffer of exactly [size] elements, the per-token branch
    ends in an access past the buffer. *)
Lemma enhance_overruns_on_any_remainder (st : engine F) (mem : list F)
    (activations size sequence_length hidden_size : Z) :
  g_dithering_initialized st = true ->
  resolution_enhancement (g_dithering_config st) = true ->
  enable_dithering (g_dithering_config st) = true ->
  adaptive_strength (g_dithering_config st) = false ->
  0 < hidden_size -> 0 <= sequence_length ->
  sequence_length * hidden_size < size
  < (sequence_length + 1) * hidden_size ->
  size <= INT_MAX ->
  0 <= activations -> activations + size = Z.of_nat (length mem) ->
  bitnet_enhance_resolution_dithering mem activations size sequence_length
    hidden_size st
  = (st, Fault OutOfBounds).
Proof.
  intros Hinit Hres Hen Had Hh Hseq Hsize Hmax Hact Hfit.
  unfold bitnet_enhance_resolution_dithering, bind, gets, ret, lift.
  rewrite Hinit, Hres. cbn [negb orb].
  unfold int_div.
  destruct (Z.eqb_spec hidden_size 0); [lia|].
  destruct (Z.eqb_spec hidden_size (-1)); [lia|].
  rewrite andb_false_r.
  replace (Z.quot size hidden_size) with sequence_length.
  2: { rewrite Z.quot_div_nonneg by nia.
       apply (Z.div_unique size hidden_size sequence_length
                (size - sequence_length * hidden_size)); lia. }
  rewrite Z.eqb_refl.
  apply enhance_loop_overrun with (k := Z.to_nat sequence_length);
    try done; try lia; nia.
Qed.

End Dispatch.

Lemma apply_ordered_reads_config_only {F : Type} {SF : Scalar F}
    (st st' : engine F) mem weights size layer_idx config :
  g_dithering_config st = g_dithering_config st' ->
  snd (bitnet_apply_ordered_dithering mem weights size layer_idx config st)
  = snd (bitnet_apply_ordered_dithering mem weights size layer_idx config st').
Proof.
  intros Hcfg. destruct config as [c|]; [|reflexivity].
  unfold bitnet_apply_ordered_dithering,
    bitnet_calculate_adaptive_strength, bind, gets, ret, lift.
  destruct (enable_dithering c); [|reflexivity]. cbn [negb].
  destruct (adaptive_strength c).
  - rewrite Hcfg.
    destruct (adaptive_strength (g_dithering_config st')); cbn [negb].
    + destruct (bitnet_calculate_content_complexity mem weights size);
        [|reflexivity].
      rewrite Hcfg. now destruct (bayer_matrix_size c =? 8).
    + now destruct (bayer_matrix_size c =? 8).
  - now destruct (bayer_matrix_size c =? 8).
Qed.

Lemma resolution_dithering_scale_irrelevant {F : Type} {SF : Scalar F}
    (st : engine F) mem weights size layer_idx (scale scale' : F) :
  adaptive_strength (g_dithering_config st) = true ->
  bitnet_apply_resolution_dithering mem weights size layer_idx scale st
  = bitnet_apply_resolution_dithering mem weights size layer_idx scale' st.
Proof.
  intros Ha. unfold bitnet_apply_resolution_dithering, bind, gets, ret.
  destruct (negb (g_dithering_initialized st) || _); [reflexivity|].
  unfold bitnet_apply_ordered_dithering.
  cbn [enable_dithering adaptive_strength bayer_matrix_size
       dithering_strength].
  rewrite Ha. reflexivity.
Qed.

(** ** Exact arithmetic *)

Lemma Q_lt_spec (a b : Q) : Q_lt a b = true <-> (a < b)%Q.
Proof.
  unfold Q_lt. rewrite Qlt_alt.
  destruct (a ?= b)%Q; split; intros; congruence.
Qed.

Lemma Q_lt_false (a b : Q) : Q_lt a b = false <-> (b <= a)%Q.
Proof.
  rewrite <- not_true_iff_false, Q_lt_spec. split.
  - apply Qnot_lt_le.
  - apply Qle_not_lt.
Qed.

Lemma Qsum_app (l1 l2 : list Q) : (Qsum (l1 ++ l2) == Qsum l1 + Qsum l2)%Q.
Proof.
  induction l1 as [|x l1 IH]; simpl.
  - ring.
  - rewrite IH. ring.
Qed.

Lemma Qsum_map_scale {A} (f : A -> Q) (s : Q) (l : list A) :
  (Qsum (map (fun a => f a * s) l) == Qsum (map f l) * s)%Q.
Proof.
  induction l as [|a l IH]; simpl.
  - ring.
  - rewrite IH. ring.
Qed.

Lemma Qsum_imap_add (g : nat -> Q) (l : list Q) :
  (Qsum (imap (fun j x => x + g j) l)
   == Qsum l + Qsum (map g (seq 0 (length l))))%Q.
Proof.
  revert g. induction l as [|x l IH]; intros g; simpl.
  - ring.
  - rewrite (IH (fun j => g (S j))).
    rewrite <- seq_shift, map_map. ring.
Qed.

Section Exact.

Variable lg : Q -> Q.

#[local] Hint Extern 0 (Scalar Q) => exact (Q_scalar lg)
  : typeclass_instances.

Local Open Scope Q_scope.

(** *** Sums over full tiles *)

Lemma tile_noise_bias (table : list Q) (strength : Q) (j : nat) :
  tile_noise table strength (Z.of_nat j) = tile_bias table j * strength.
Proof. reflexivity. Qed.

Lemma tile_bias_periodic (table : list Q) (j : nat) :
  tile_bias table (length table + j) = tile_bias table j.
Proof.
  unfold tile_bias. destruct table as [|t table]; [reflexivity|].
  do 4 f_equal. rewrite Nat2Z.inj_add.
  rewrite Z.add_comm, <- (Z.mul_1_l (Z.of_nat (length (t :: table)))) at 1.
  apply Z.mod_add. simpl. lia.
Qed.

Lemma tile_bias_sum_periods (table : list Q) (k : nat) :
  Qsum (map (tile_bias table) (seq 0 (k * length table)))
  == inject_Z (Z.of_nat k)
     * Qsum (map (tile_bias table) (seq 0 (length table))).
Proof.
  induction k as [|k IH]; [simpl; ring|].
  cbn [Nat.mul]. rewrite seq_app, map_app, Qsum_app.
  rewrite Nat.add_0_l.
  replace (seq (length table) (k * length table))
    with (map (Nat.add (length table)) (seq 0 (k * length table)))
    by (rewrite (fmap_add_seq (length table) 0); f_equal; lia).
  rewrite map_map.
  rewrite (map_ext (fun j => tile_bias table (length table + j))
             (tile_bias table))
    by (intros j; apply tile_bias_periodic).
  rewrite IH, Nat2Z.inj_succ. unfold Z.succ. rewrite inject_Z_plus. ring.
Qed.

(** One full tile of either table sums to one half below zero: the
    entries are the ranks [0 .. n-1] over [n], whose mean is
    [(n-1)/(2n)], not one half. *)
Lemma BAYER_4X4_bias :
  Qsum (map (tile_bias BAYER_4X4) (seq 0 (length (BAYER_4X4 (F:=Q)))))
  == - (1 # 2).
Proof. vm_compute. reflexivity. Qed.

Lemma BAYER_8X8_bias :
  Qsum (map (tile_bias BAYER_8X8) (seq 0 (length (BAYER_8X8 (F:=Q)))))
  == - (1 # 2).
Proof. vm_compute. reflexivity. Qed.

Lemma dithered_whole (table : list Q) (strength : Q) (buf : list Q) :
  dithered table strength 0 (Z.of_nat (length buf)) buf
  = imap (fun j x => x + tile_bias table j * strength) buf.
Proof.
  unfold dithered. apply imap_ext. intros j x Hj.
  apply lookup_lt_Some in Hj.
  rewrite bool_decide_eq_true_2 by lia.
  rewrite Z.sub_0_r. reflexivity.
Qed.

Lemma dithered_whole_sum (table : list Q) (strength : Q) (buf : list Q)
    (k : nat) :
  length buf = (k * length table)%nat ->
  Qsum (dithered table strength 0 (Z.of_nat (length buf)) buf)
  == Qsum buf
     + inject_Z (Z.of_nat k)
       * Qsum (map (tile_bias table) (seq 0 (length table))) * strength.
Proof.
  intros Hlen. rewrite dithered_whole.
  rewrite (Qsum_imap_add (fun j => tile_bias table j * strength)).
  rewrite Qsum_map_scale, Hlen, tile_bias_sum_periods.
  ring.
Qed.

(** *** The estimator on a constant buffer *)

Lemma load_replicate (c : Q) (n : nat) (i : Z) :
  (0 <= i < Z.of_nat n)%Z -> load (replicate n c) i = Ok c.
Proof.
  intros Hi. apply load_Some; [lia|].
  apply lookup_replicate_2. lia.
Qed.

Lemma constant_mean_loop (c : Q) (n : nat) :
  exists sum,
    for_range n 0 (mean_step (replicate n c) 0) f0 = Ok sum
    /\ sum == inject_Z (Z.of_nat n) * c.
Proof.
  destruct (for_range_invariant
              (fun j (s : Q) => s == inject_Z j * c)
              (mean_step (replicate n c) 0) n 0 f0) as [sum [Hrun Hsum]].
  - unfold f0. simpl. ring.
  - intros j t Hj Ht. unfold mean_step.
    rewrite load_replicate by lia. cbn [rbind].
    eexists. split; [reflexivity|].
    simpl. rewrite Ht, inject_Z_plus. ring.
  - exists sum. split; [assumption|]. now rewrite Z.add_0_l in Hsum.
Qed.

Lemma constant_variance_loop (c mean : Q) (n : nat) :
  mean == c ->
  exists sq,
    for_range n 0 (variance_step (replicate n c) 0 mean) f0 = Ok sq
    /\ sq == 0.
Proof.
  intros Hmean.
  destruct (for_range_invariant
              (fun (_ : Z) (s : Q) => s == 0)
              (variance_step (replicate n c) 0 mean) n 0 f0)
    as [sq [Hrun Hsq]].
  - reflexivity.
  - intros j t Hj Ht. unfold variance_step.
    rewrite load_replicate by lia. cbn [rbind].
    eexists. split; [reflexivity|].
    simpl. rewrite Ht, Hmean. ring.
  - exists sq. split; assumption.
Qed.

Lemma constant_minmax_loop (c : Q) (n m : nat) :
  (1 + Z.of_nat m <= Z.of_nat n)%Z ->
  for_range m 1 (minmax_step (replicate n c) 0) (c, c) = Ok (c, c).
Proof.
  intros Hm.
  destruct (for_range_invariant
              (fun (_ : Z) (mm : Q * Q) => mm = (c, c))
              (minmax_step (replicate n c) 0) m 1 (c, c))
    as [mm [Hrun Hmm]].
  - reflexivity.
  - intros j t Hj ->. unfold minmax_step.
    rewrite load_replicate by lia. cbn [rbind fst snd].
    eexists. split; [reflexivity|].
    unfold std_min, std_max. now destruct (flt c c).
  - now rewrite Hrun, Hmm.
Qed.

Lemma constant_buffer_complexity (c : Q) (n : nat) :
  (1 <= n)%nat ->
  exists r,
    bitnet_calculate_content_complexity (replicate n c) 0 (Z.of_nat n) = Ok r
    /\ r == 0.
Proof.
  intros Hn. unfold bitnet_calculate_content_complexity.
  destruct (Z.leb_spec (Z.of_nat n) 0) as [|_]; [lia|].
  rewrite Nat2Z.id.
  destruct (constant_mean_loop c n) as [sum [-> Hsum]]. cbn [rbind].
  assert (fdiv sum (of_int (Z.of_nat n)) == c) as Hmean.
  { simpl. rewrite Hsum. field.
    intros Hz. unfold Qeq in Hz. simpl in Hz. lia. }
  destruct (constant_variance_loop c _ n Hmean) as [sq [-> Hsq]].
  cbn [rbind].
  rewrite load_replicate by lia. cbn [rbind].
  rewrite constant_minmax_loop by lia. cbn [rbind fst snd].
  assert (flt f0 (fsub c c) = false) as ->.
  { apply Q_lt_false. change (c - c <= 0).
    assert (c - c == 0) as -> by ring. apply Qle_refl. }
  cbn [rbind].
  eexists. split; [reflexivity|].
  change (fold_left (entropy_step (Z.of_nat n))
            (replicate (Z.to_nat bins) 0%Z) f0) with (f0 (F:=Q)).
  simpl. rewrite Hsq. unfold Qdiv. ring.
Qed.

(** *** The estimator completes on every buffer *)

Lemma Q_to_int_bin (q : Q) :
  0 <= q <= 31 ->
  exists z, Q_to_int q = Some z /\ (0 <= z <= 31)%Z.
Proof.
  intros [Hlo Hhi]. unfold Q_to_int.
  destruct q as [num den]. unfold Qle in *. cbn [Qnum Qden] in *.
  assert (0 <= num)%Z by lia.
  assert (0 <= num / Z.pos den <= 31)%Z as Hz.
  { split.
    - apply Z.div_pos; lia.
    - apply Z.div_le_upper_bound; lia. }
  rewrite Z.quot_div_nonneg by lia.
  exists (num / Z.pos den)%Z. split; [|exact Hz].
  unfold in_int.
  destruct (Z.leb_spec INT_MIN (num / Z.pos den));
    destruct (Z.leb_spec (num / Z.pos den) INT_MAX);
    try reflexivity; int_bounds; lia.
Qed.

Section Buffer.

Variables (mem : list Q) (weights size : Z).
Hypothesis weights_nonneg : (0 <= weights)%Z.
Hypothesis size_fits : (weights + size <= Z.of_nat (length mem))%Z.

Lemma mean_loop_total (n : nat) (s : Q) :
  (Z.of_nat n <= size)%Z ->
  exists sum, for_range n 0 (mean_step mem weights) s = Ok sum.
Proof.
  intros Hn.
  destruct (for_range_invariant (fun _ _ => True) (mean_step mem weights)
              n 0 s I) as [sum [Hrun _]].
  - intros j t Hj _. unfold mean_step.
    destruct (load_in_bounds mem (weights + j)) as [x [_ ->]]; [lia|].
    cbn [rbind]. eauto.
  - eauto.
Qed.


Lemma minmax_loop_total (w0 : Q) :
  (0 < size)%Z -> mem !! Z.to_nat weights = Some w0 ->
  exists mm,
    for_range (Z.to_nat (size - 1)) 1 (minmax_step mem weights) (w0, w0)
    = Ok mm /\ encloses mem weights size mm.
Proof.
  intros Hsize Hw0.
  destruct (for_range_invariant (encloses mem weights) (minmax_step mem weights)
              (Z.to_nat (size - 1)) 1 (w0, w0)) as [mm [Hrun Hmm]].
  - intros k x Hk Hx. replace (weights + k)%Z with weights in Hx by lia.
    rewrite Hw0 in Hx. injection Hx as <-. cbn [fst snd].
    split; apply Qle_refl.
  - intros j [mn mx] Hj Hinv. unfold minmax_step.
    destruct (load_in_bounds mem (weights + j)) as [x [Hx ->]]; [lia|].
    cbn [rbind fst snd]. eexists. split; [reflexivity|].
    intros k y Hk Hy. cbn [fst snd].
    assert (std_min mn x <= mn /\ std_min mn x <= x) as [Hmin1 Hmin2].
    { unfold std_min. destruct (flt x mn) eqn:E.
      - apply Q_lt_spec in E. split; [now apply Qlt_le_weak|apply Qle_refl].
      - apply Q_lt_false in E. split; [apply Qle_refl|assumption]. }
    assert (mx <= std_max mx x /\ x <= std_max mx x) as [Hmax1 Hmax2].
    { unfold std_max. destruct (flt mx x) eqn:E.
      - apply Q_lt_spec in E. split; [now apply Qlt_le_weak|apply Qle_refl].
      - apply Q_lt_false in E. split; [apply Qle_refl|assumption]. }
    destruct (Z.eq_dec k j) as [->|Hne].
    + rewrite Hx in Hy. injection Hy as <-. split; assumption.
    + destruct (Hinv k y) as [H1 H2]; [lia|assumption|]. cbn [fst snd] in *.
      split; [apply (Qle_trans _ mn)|apply (Qle_trans _ mx)]; assumption.
  - exists mm. split; [assumption|].
    now replace (1 + Z.of_nat (Z.to_nat (size - 1)))%Z with size in Hmm by lia.
Qed.



End Buffer.

(** *** The clamp *)



Lemma clamp_as_written (x : Q) :
  std_max (lit 5 10) (std_min (lit 2 1) x) == Qclamp x (1 # 2) 2.
Proof.
  assert (lit 5 10 == 1 # 2) as Ehalf by reflexivity.
  assert (lit 2 1 == 2) as Etwo by reflexivity.
  unfold std_max, std_min, Qclamp.
  change flt with Q_lt.
  destruct (Q_lt x (lit 2 1)) eqn:Hhi.
  - apply Q_lt_spec in Hhi. rewrite Etwo in Hhi.
    destruct (Q_lt (lit 5 10) x) eqn:Hlo.
    + apply Q_lt_spec in Hlo. rewrite Ehalf in Hlo.
      destruct (Qlt_le_dec x (1 # 2)); [lra|].
      destruct (Qlt_le_dec 2 x); lra.
    + apply Q_lt_false in Hlo. rewrite Ehalf in Hlo.
      destruct (Qlt_le_dec x (1 # 2)); [lra|].
      destruct (Qlt_le_dec 2 x); lra.
  - apply Q_lt_false in Hhi. rewrite Etwo in Hhi.
    change (Q_lt (lit 5 10) (lit 2 1)) with true. cbn iota.
    destruct (Qlt_le_dec x (1 # 2)); [lra|].
    destruct (Qlt_le_dec 2 x); lra.
Qed.

End Exact.

(** ** Clamping in binary32

    The two comparisons clamp every float, NaN included (a NaN factor
    fails [x < 2.0f] and is replaced by 2.0f). *)



(** ** Conversions and differences in binary32

    [of_int] of a positive integer is a positive float (finite, or the
    infinity past the largest float): the rounding shift never drops the
    leading bit. *)

Lemma digits2_pos_lower (p : positive) :
  2 ^ (Zpos (digits2_pos p) - 1) <= Zpos p.
Proof.
  induction p as [p IH|p IH|]; cbn [digits2_pos]; [| |reflexivity];
    rewrite Pos2Z.inj_succ;
    replace (Z.succ (Z.pos (digits2_pos p)) - 1)
      with (Z.succ (Z.pos (digits2_pos p) - 1)) by lia;
    rewrite Z.pow_succ_r by lia;
    set (t := 2 ^ (Z.pos (digits2_pos p) - 1)) in *; lia.
Qed.

Lemma shr_1_halves (mrs : shr_record) :
  0 <= shr_m mrs -> shr_m (shr_1 mrs) = shr_m mrs / 2.
Proof.
  intros Hm. rewrite <- Z.div2_div.
  destruct mrs as [[|[p|p|]|p] r s]; cbn in *; try reflexivity; lia.
Qed.

Lemma iter_shr_1_divides (k : positive) :
  forall mrs : shr_record,
    0 <= shr_m mrs -> shr_m (SpecFloat.iter_pos shr_1 k mrs) = shr_m mrs / 2 ^ Zpos k.
Proof.
  induction k as [k IH|k IH|]; intros mrs Hm; cbn [SpecFloat.iter_pos].
  - assert (0 <= shr_m (shr_1 mrs)) as H1
      by (rewrite shr_1_halves by assumption; apply Z.div_pos; lia).
    assert (0 <= shr_m (SpecFloat.iter_pos shr_1 k (shr_1 mrs))) as H2
      by (rewrite IH by assumption; apply Z.div_pos; lia).
    rewrite IH, IH, shr_1_halves by assumption.
    assert (0 < 2 ^ Z.pos k) as Hp by (apply Z.pow_pos_nonneg; lia).
    rewrite !Z.div_div by lia. f_equal.
    replace (Z.pos k~1) with (1 + Z.pos k + Z.pos k) by lia.
    rewrite !Z.pow_add_r by lia. change (2 ^ 1) with 2. ring.
  - assert (0 <= shr_m (SpecFloat.iter_pos shr_1 k mrs)) as H2
      by (rewrite IH by assumption; apply Z.div_pos; lia).
    rewrite IH, IH by assumption.
    assert (0 < 2 ^ Z.pos k) as Hp by (apply Z.pow_pos_nonneg; lia).
    rewrite !Z.div_div by lia. f_equal.
    replace (Z.pos k~0) with (Z.pos k + Z.pos k) by lia.
    rewrite !Z.pow_add_r by lia. reflexivity.
  - now apply shr_1_halves.
Qed.

(** A positive mantissa above the underflow threshold keeps a positive
    mantissa when it is shifted to its rounding exponent. *)
Lemma shr_fexp_positive (p : positive) (e : Z) (l : location) :
  emin b32_prec b32_emax < Zpos (digits2_pos p) + e ->
  1 <= shr_m (fst (shr_fexp b32_prec b32_emax (Zpos p) e l))
  /\ emin b32_prec b32_emax <= snd (shr_fexp b32_prec b32_emax (Zpos p) e l).
Proof.
  intros Habove. unfold shr_fexp, shr. cbn [Zdigits2].
  assert (shr_m (shr_record_of_loc (Z.pos p) l) = Z.pos p) as Hm
    by (destruct l as [|[]]; reflexivity).
  pose proof (digits2_pos_lower p) as Hd.
  set (d := Z.pos (digits2_pos p)) in *.
  unfold fexp, emin, b32_prec, b32_emax in *.
  destruct (Z.max (d + e - 24) (3 - 128 - 24) - e) as [|k|k] eqn:Hk;
    cbn [fst snd]; rewrite ?Hm; try lia.
  rewrite iter_shr_1_divides by (rewrite Hm; lia). rewrite Hm.
  split; [|lia].
  assert (2 ^ Z.pos k <= 2 ^ (d - 1)) as Hpow
    by (apply Z.pow_le_mono_r; lia).
  assert (0 < 2 ^ Z.pos k) as Hp by (apply Z.pow_pos_nonneg; lia).
  apply Z.div_le_lower_bound; lia.
Qed.

Lemma round_nearest_even_grows (m : Z) (l : location) :
  m <= round_nearest_even m l.
Proof.
  destruct l as [|[]]; cbn; try lia. destruct (Z.even m); lia.
Qed.

Lemma binary_round_aux_positive (p : positive) (e : Z) :
  emin b32_prec b32_emax < Zpos (digits2_pos p) + e ->
  exists m' e',
    binary_round_aux b32_prec b32_emax false (Zpos p) e loc_Exact
    = S754_finite false m' e'
    \/ binary_round_aux b32_prec b32_emax false (Zpos p) e loc_Exact
       = S754_infinity false.
Proof.
  intros Habove. unfold binary_round_aux.
  destruct (shr_fexp_positive p e loc_Exact Habove) as [Hm1 He1].
  destruct (shr_fexp b32_prec b32_emax (Z.pos p) e loc_Exact) as [mrs' e'].
  cbn [fst snd] in *.
  pose proof (round_nearest_even_grows (shr_m mrs') (loc_of_shr_record mrs'))
    as Hr.
  destruct (round_nearest_even (shr_m mrs') (loc_of_shr_record mrs'))
    as [|q|q] eqn:Hq; try lia.
  destruct (shr_fexp_positive q e' loc_Exact) as [Hm2 _]; [lia|].
  destruct (shr_fexp b32_prec b32_emax (Z.pos q) e' loc_Exact) as [mrs'' e''].
  cbn [fst snd] in *.
  destruct (shr_m mrs'') as [|m|m]; try lia.
  exists m, e''. destruct (e'' <=? b32_emax - b32_prec); auto.
Qed.

Definition is_positive (x : spec_float) : bool :=
  match x with
  | S754_finite false _ _ | S754_infinity false => true
  | _ => false
  end.

Lemma b32_of_int_positive (lg : spec_float -> spec_float) (n : Z) :
  0 < n -> is_positive (of_int (Scalar:=b32_scalar lg) n) = true.
Proof.
  intros Hn. destruct n as [|p|p]; try lia. cbn [of_int b32_scalar].
  unfold binary_normalize, binary_round, shl_align.
  pose proof (Pos2Z.is_pos (digits2_pos p)) as Hd.
  assert (emin b32_prec b32_emax
          <= fexp b32_prec b32_emax (Z.pos (digits2_pos p) + 0)) as Hf
    by (unfold fexp; lia).
  destruct (fexp b32_prec b32_emax (Z.pos (digits2_pos p) + 0) - 0)
    as [|k|k] eqn:Hk.
  - destruct (binary_round_aux_positive p 0) as (m' & e' & [-> | ->]);
      [unfold emin, b32_prec, b32_emax; lia|reflexivity|reflexivity].
  - destruct (binary_round_aux_positive p 0) as (m' & e' & [-> | ->]);
      [unfold emin, b32_prec, b32_emax; lia|reflexivity|reflexivity].
  - destruct (binary_round_aux_positive (Pos.iter xO p k)
                (fexp b32_prec b32_emax (Z.pos (digits2_pos p) + 0)))
      as (m' & e' & [-> | ->]); [|reflexivity|reflexivity].
    pose proof (Pos2Z.is_pos (digits2_pos (Pos.iter xO p k))). lia.
Qed.

(** ** The estimator on a constant buffer, in the code's own terms *)

Lemma for_range_iter {T : Type} (g : T -> T) (body : Z -> T -> result T) :
  forall (n : nat) (i : Z) (s : T),
    (forall j t, i <= j < i + Z.of_nat n -> body j t = Ok (g t)) ->
    for_range n i body s = Ok (Nat.iter n g s).
Proof.
  induction n as [|n IH]; intros i s Hbody; [reflexivity|].
  cbn [for_range]. rewrite Hbody by lia. cbn [rbind].
  rewrite IH by (intros j t Hj; apply Hbody; lia).
  now rewrite Nat.iter_succ_r.
Qed.

Lemma iter_fixed_point {T : Type} (g : T -> T) (s : T) (n : nat) :
  g s = s -> Nat.iter n g s = s.
Proof.
  intros Hs. induction n as [|n IH]; [reflexivity|].
  now rewrite Nat.iter_succ, IH.
Qed.

Lemma load_constant {A} (v : A) (n : nat) (i : Z) :
  0 <= i < Z.of_nat n -> load (replicate n v) i = Ok v.
Proof.
  intros Hi. apply load_Some; [lia|]. apply lookup_replicate_2. lia.
Qed.

Section ConstantBuffer.

Context {F : Type} {SF : Scalar F}.

(** What the two accumulation loops of the estimator leave on [n] copies
    of [v]: the running sum, the mean, and the mean of the squared
    differences between [v] and that mean. *)
Definition constant_sum (v : F) (n : nat) : F :=
  Nat.iter n (fun sum => fadd sum v) f0.

Definition constant_mean (v : F) (n : nat) : F :=
  fdiv (constant_sum v n) (of_int (Z.of_nat n)).

Definition constant_variance (v : F) (n : nat) : F :=
  let diff := fsub v (constant_mean v n) in
  fdiv (Nat.iter n (fun variance => fadd variance (fmul diff diff)) f0)
    (of_int (Z.of_nat n)).

(** On a constant buffer whose range [v - v] is not positive the histogram
    is never filled: the entropy term is [f0] and the result is the
    variance term alone. *)
Lemma constant_buffer_estimate (v : F) (n : nat) :
  (1 <= n)%nat -> flt f0 (fsub v v) = false ->
  bitnet_calculate_content_complexity (replicate n v) 0 (Z.of_nat n)
  = Ok (fadd (fmul (constant_variance v n) (lit 6 10))
          (fmul f0 (lit 4 10))).
Proof.
  intros Hn Hrange. unfold bitnet_calculate_content_complexity.
  destruct (Z.leb_spec (Z.of_nat n) 0) as [|_]; [lia|].
  rewrite Nat2Z.id.
  rewrite (for_range_iter (fun sum => fadd sum v))
    by (intros j t Hj; unfold mean_step; now rewrite load_constant by lia).
  cbn [rbind].
  rewrite (for_range_iter
             (fun variance =>
                fadd variance
                  (fmul (fsub v (constant_mean v n))
                     (fsub v (constant_mean v n)))))
    by (intros j t Hj; unfold variance_step;
        now rewrite load_constant by lia).
  cbn [rbind]. rewrite load_constant by lia. cbn [rbind].
  rewrite (for_range_iter
             (fun mm : F * F => (std_min (fst mm) v, std_max (snd mm) v)))
    by (intros j t Hj; unfold minmax_step;
        now rewrite load_constant by lia).
  rewrite iter_fixed_point
    by (cbn [fst snd]; unfold std_min, std_max; now destruct (flt v v)).
  cbn [rbind fst snd]. rewrite Hrange. cbn [rbind]. reflexivity.
Qed.

End ConstantBuffer.

Definition is_finite (x : spec_float) : bool :=
  match x with
  | S754_zero _ | S754_finite _ _ _ => true
  | _ => false
  end.

Lemma b32_sub_self (x : spec_float) :
  is_finite x = true -> SFsub b32_prec b32_emax x x = S754_zero false.
Proof.
  destruct x as [[|]|s| |s m e]; try discriminate; try reflexivity.
  intros _. cbn [SFsub]. now rewrite Z.sub_diag.
Qed.

Lemma b32_range_of_constant (lg : spec_float -> spec_float)
    (v : spec_float) :
  flt (Scalar:=b32_scalar lg) (f0 (SF:=b32_scalar lg))
    (fsub (Scalar:=b32_scalar lg) v v) = false.
Proof.
  cbn [flt fsub b32_scalar].
  destruct v as [[|]|[|]| |s m e]; try reflexivity.
  now rewrite (b32_sub_self (S754_finite s m e)).
Qed.

Lemma b32_exact_mean_no_variance (lg : spec_float -> spec_float)
    (v : spec_float) (n : nat) :
  (1 <= n)%nat -> is_finite v = true ->
  constant_mean (SF:=b32_scalar lg) v n = v ->
  constant_variance (SF:=b32_scalar lg) v n = S754_zero false.
Proof.
  intros Hn Hv Hmean. unfold constant_variance. rewrite Hmean.
  cbn [fsub fmul fadd fdiv b32_scalar]. rewrite (b32_sub_self v Hv).
  rewrite iter_fixed_point by reflexivity.
  pose proof (b32_of_int_positive lg (Z.of_nat n)) as Hpos.
  destruct (of_int (Z.of_nat n)) as [s|[|]| |[|] m e];
    try (discriminate Hpos; lia); reflexivity.
Qed.

(** The factor of bitnet_calculate_adaptive_strength, as the source clamps
    it. *)
Definition adaptive_factor {F : Type} {SF : Scalar F} (complexity : F) : F :=
  std_max (lit 5 10)
    (std_min (lit 2 1)
       (fadd (lit 1 1) (fmul (fsub complexity (lit 1 10)) (lit 2 1)))).

(** ** Claims: any arithmetic *)

(** C1: on the buffer [1,1,1,1] (size 4) with config enabled, strength 1.0,
    patternSize 4, adaptiveStrength false, bitnet_apply_ordered_dithering
    leaves [0.5, 1.0, 0.625, 1.125] in the buffer: element i receives
    (BAYER_4X4[i] - 0.5) * 1.0.  Shown for any arithmetic in the symbolic
    form, and with the four values in binary32 and in exact rationals; the
    engine state, the layer index and log2 play no part. *)
Theorem C1_ordered_dithering_of_ones :
  (forall (F : Type) (S : Scalar F) (st : engine F) (layer_idx : Z),
      bitnet_apply_ordered_dithering (ones 4) 0 4 layer_idx
        (Some (fixed_config (lit 1 1) 4)) st
      = (st, Ok (imap (fun i x =>
                         fadd x (fmul (fsub (default f0 (BAYER_4X4 !! i))
                                         (lit 5 10)) (lit 1 1)))
                   (ones 4))))
  /\ (forall lg (st : engine spec_float) (layer_idx : Z),
        let S := b32_scalar lg in
        bitnet_apply_ordered_dithering (SF:=S) (ones (SF:=S) 4) 0 4 layer_idx
          (Some (fixed_config (SF:=S) (lit (SF:=S) 1 1) 4)) st
        = (st, Ok [lit (SF:=S) 1 2; lit (SF:=S) 1 1;
                   lit (SF:=S) 5 8; lit (SF:=S) 9 8]))
  /\ (forall lg (st : engine Q) (layer_idx : Z),
        let S := Q_scalar lg in
        exists out,
          bitnet_apply_ordered_dithering (SF:=S) (ones (SF:=S) 4) 0 4
            layer_idx (Some (fixed_config (SF:=S) (lit (SF:=S) 1 1) 4)) st
          = (st, Ok out)
          /\ Forall2 Qeq out [1 # 2; 1; 5 # 8; 9 # 8]%Q).
Proof.
  split; [|split].
  - intros. reflexivity.
  - intros. vm_compute. reflexivity.
  - intros. eexists. split; [reflexivity|].
    repeat constructor.
Qed.

(** C3 (amended): when the flag is false, bitnet_apply_resolution_dithering
    and bitnet_enhance_resolution_dithering return at once and leave the
    buffer as it was, for every buffer, offset, size, layer index, scale,
    sequence length and hidden size (no division is reached, so a zero
    hidden size is harmless here).  bitnet_apply_ordered_dithering is
    gated by its config argument only: its effect on the buffer is the
    same whatever the flag. *)
Theorem C3_uninitialized_engine_gates :
  forall (F : Type) (S : Scalar F) (st : engine F),
    g_dithering_initialized st = false ->
    forall (mem : list F) (p size layer_idx sequence_length hidden_size : Z)
           (scale : F) (config : option (BitNetDitheringConfig F))
           (flag : bool),
      bitnet_apply_resolution_dithering mem p size layer_idx scale st
      = (st, Ok mem)
      /\ bitnet_enhance_resolution_dithering mem p size sequence_length
           hidden_size st = (st, Ok mem)
      /\ snd (bitnet_apply_ordered_dithering mem p size layer_idx config
                (with_initialized flag st))
         = snd (bitnet_apply_ordered_dithering mem p size layer_idx config
                  st).
Proof.
  intros F S st Hinit mem p size layer_idx sequence_length hidden_size
    scale config flag.
  unfold bitnet_apply_resolution_dithering,
    bitnet_enhance_resolution_dithering, bind, gets, ret.
  rewrite Hinit. cbn [negb orb]. repeat split.
  apply apply_ordered_reads_config_only. reflexivity.
Qed.

(** C5 (amended): with the engine initialized and resolution_enhancement
    on, a positive hidden size and size = sequence_length * hidden_size
    exactly (size within int): when enable_dithering is on and
    adaptive_strength off and the buffer holds the [size] elements, the
    call dithers each hidden_size-sized segment with strength 0.05 and the
    8x8 table, the pattern index restarting at 0 in each segment (the
    element at distance d from the start receives
    (BAYER_8X8[(d mod hidden_size) mod 64] - 0.5) * 0.05, and nothing
    outside the [size] elements is touched); when enable_dithering is off
    the call returns the buffer as it was, whatever the buffer, the pointer
    and adaptive_strength. *)
Theorem C5_enhance_dithers_each_token :
  forall (F : Type) (S : Scalar F) (st : engine F) (mem : list F)
         (activations size sequence_length hidden_size : Z),
    g_dithering_initialized st = true ->
    resolution_enhancement (g_dithering_config st) = true ->
    0 < hidden_size -> 0 <= sequence_length ->
    size = sequence_length * hidden_size -> size <= INT_MAX ->
    (enable_dithering (g_dithering_config st) = true ->
     adaptive_strength (g_dithering_config st) = false ->
     0 <= activations -> activations + size <= Z.of_nat (length mem) ->
     bitnet_enhance_resolution_dithering mem activations size sequence_length
       hidden_size st
     = (st, Ok (segment_dithered BAYER_8X8 (lit 5 100) activations size
                  hidden_size mem)))
    /\ (enable_dithering (g_dithering_config st) = false ->
        bitnet_enhance_resolution_dithering mem activations size
          sequence_length hidden_size st
        = (st, Ok mem)).
Proof.
  intros F S st mem activations size sequence_length hidden_size
    Hinit Hres Hh Hseq Hsize Hmax.
  unfold bitnet_enhance_resolution_dithering, bind, gets, ret, lift.
  rewrite Hinit, Hres. cbn [negb orb].
  unfold int_div.
  destruct (Z.eqb_spec hidden_size 0); [lia|].
  destruct (Z.eqb_spec hidden_size (-1)); [lia|].
  rewrite andb_false_r.
  replace (Z.quot size hidden_size) with sequence_length
    by (subst size; now rewrite Z.quot_mul by lia).
  rewrite Z.eqb_refl. split.
  - intros Hen Had Hact Hfit.
    etransitivity;
      [apply enhance_loop_ok with (k := Z.to_nat sequence_length);
       try done; try lia; try nia|].
    cbn [dithering_strength]. do 2 f_equal.
    rewrite Z.add_0_r, Z.sub_0_r. reflexivity.
  - intros Hen.
    apply enhance_loop_disabled with (k := Z.to_nat sequence_length);
      try done; try lia; nia.
Qed.

(** C9: bitnet_apply_ordered_dithering with a null config pointer, or with
    a config whose enable_dithering is false, returns at once: the buffer
    (and the engine) are what they were, for every buffer, offset, size and
    layer index. *)
Theorem C9_null_or_disabled_config_is_noop :
  forall (F : Type) (S : Scalar F) (st : engine F) (mem : list F)
         (weights size layer_idx : Z)
         (config : option (BitNetDitheringConfig F)),
    (config = None
     \/ exists c, config = Some c /\ enable_dithering c = false) ->
    bitnet_apply_ordered_dithering mem weights size layer_idx config st
    = (st, Ok mem).
Proof.
  intros F S st mem weights size layer_idx config [->|[c [-> Hc]]];
    unfold bitnet_apply_ordered_dithering.
  - reflexivity.
  - rewrite Hc. reflexivity.
Qed.

(** C10: bitnet_apply_ordered_dithering, bitnet_apply_resolution_dithering,
    bitnet_enhance_resolution_dithering, bitnet_should_apply_dithering,
    bitnet_calculate_adaptive_strength, bitnet_get_dithering_config and
    bitnet_get_dithering_metrics leave the three globals (config, metrics,
    initialized flag) as they found them, whatever their arguments and
    whether they complete or stop at a fault. *)
Theorem C10_only_lifecycle_and_setter_write_globals :
  forall (F : Type) (S : Scalar F) (st : engine F) (mem : list F)
         (p size layer_idx sequence_length hidden_size : Z) (scale : F)
         (config : option (BitNetDitheringConfig F)),
    fst (bitnet_apply_ordered_dithering mem p size layer_idx config st) = st
    /\ fst (bitnet_apply_resolution_dithering mem p size layer_idx scale st)
       = st
    /\ fst (bitnet_enhance_resolution_dithering mem p size sequence_length
              hidden_size st) = st
    /\ fst (bitnet_should_apply_dithering mem p size st) = st
    /\ fst (bitnet_calculate_adaptive_strength mem p size st) = st
    /\ fst (bitnet_get_dithering_config st) = st
    /\ fst (bitnet_get_dithering_metrics st) = st.
Proof.
  intros. repeat split.
  - apply preserves_apply_ordered.
  - apply preserves_apply_resolution.
  - apply preserves_enhance.
  - apply preserves_should_apply.
  - apply preserves_adaptive_strength.
Qed.

(** ** Claims: exact arithmetic and binary32, any log2 *)

Section ExactClaims.

Variable lg : Q -> Q.

#[local] Hint Extern 0 (Scalar Q) => exact (Q_scalar lg)
  : typeclass_instances.

Local Open Scope Q_scope.

(** C2 (amended): for a buffer of k full tiles (length k * patternSize^2,
    patternSize 4 or 8) and every strength, bitnet_ordered_dither completes,
    keeps the length, and in exact arithmetic lowers the sum by
    k * strength / 2, that is the mean by strength / (2 * patternSize^2):
    the sum of (t - 0.5) over the patternSize^2 table entries is -1/2, not
    0.  The mean is kept only when strength is 0. *)
Theorem C2_full_tiles_shift_the_mean :
  forall (ms : Z) (buf : list Q) (k : nat) (strength : Q),
    (ms = 4%Z \/ ms = 8%Z) ->
    length buf = (k * Z.to_nat (ms * ms))%nat ->
    let table := if (ms =? 8)%Z then BAYER_8X8 else BAYER_4X4 in
    Qsum (map (fun t => t - (1 # 2)) table) == - (1 # 2)
    /\ exists out,
         bitnet_ordered_dither buf 0 (Z.of_nat (length buf)) table ms
           strength = Ok out
         /\ length out = length buf
         /\ Qsum out == Qsum buf - inject_Z (Z.of_nat k) * strength / 2
         /\ ((0 < k)%nat ->
             Qmean out == Qmean buf - strength / (2 * inject_Z (ms * ms))).
Proof.
  intros ms buf k strength Hms Hlen table.
  assert (Z.of_nat (length table) = (ms * ms)%Z
          /\ Qsum (map (tile_bias table) (seq 0 (length table))) == - (1 # 2)
          /\ Qsum (map (fun t => t - (1 # 2)) table) == - (1 # 2))
    as (Htable & Hbias & Hentries).
  { destruct Hms as [-> | ->]; subst table; cbn [Z.eqb Pos.eqb];
      (split; [reflexivity|split; [|vm_compute; reflexivity]]).
    - apply BAYER_4X4_bias.
    - apply BAYER_8X8_bias. }
  split; [exact Hentries|].
  exists (dithered table strength 0 (Z.of_nat (length buf)) buf).
  assert (length buf = (k * length table)%nat) as Hlen'.
  { rewrite Hlen. f_equal. lia. }
  assert (Qsum (dithered table strength 0 (Z.of_nat (length buf)) buf)
          == Qsum buf - inject_Z (Z.of_nat k) * strength / 2) as Hsum.
  { rewrite (dithered_whole_sum lg table strength buf k Hlen'), Hbias.
    field. }
  split; [|split; [|split]].
  - apply ordered_dither_ok; try lia.
    + destruct Hms as [-> | ->]; reflexivity.
  - apply length_dithered.
  - exact Hsum.
  - intros Hk. unfold Qmean. rewrite length_dithered, Hsum, Hlen.
    assert (Z.of_nat (k * Z.to_nat (ms * ms))
            = (Z.of_nat k * (ms * ms))%Z) as -> by lia.
    rewrite inject_Z_mult. field. split.
    + destruct Hms as [-> | ->]; discriminate.
    + intros Hz. unfold Qeq in Hz. simpl in Hz. lia.
Qed.


(** C8 (amended): for every buffer of n >= 1 equal elements: in exact
    arithmetic the estimator completes with complexity 0 (the variance is
    0, range is 0 so the histogram is left empty and the entropy is 0), and
    bitnet_should_apply_dithering returns false in every engine state,
    since 0 is not above the 0.02 threshold.  In binary32, for every
    constant (infinities and NaN included) the range is not positive, the
    histogram is left empty and the estimator completes with
    variance * 0.6f + 0 * 0.4f, where variance is what the two accumulation
    loops leave: the mean of the squared differences between the constant
    and the computed mean.  When the constant is finite and the computed
    mean equals it, that is exactly 0 and bitnet_should_apply_dithering
    returns false in every engine state. *)
Theorem C8_constant_buffer_has_no_complexity :
  (forall (c : Q) (n : nat) (st : engine Q),
      (1 <= n)%nat ->
      (exists r,
          bitnet_calculate_content_complexity (replicate n c) 0 (Z.of_nat n)
          = Ok r /\ r == 0)
      /\ bitnet_should_apply_dithering (replicate n c) 0 (Z.of_nat n) st
         = (st, Ok false))
  /\ (forall (lgb : spec_float -> spec_float) (v : spec_float) (n : nat)
             (st : engine spec_float),
        (1 <= n)%nat ->
        let S := b32_scalar lgb in
        bitnet_calculate_content_complexity (SF:=S) (replicate n v) 0
          (Z.of_nat n)
        = Ok (fadd (Scalar:=S)
                (fmul (Scalar:=S) (constant_variance (SF:=S) v n)
                   (lit (SF:=S) 6 10))
                (fmul (Scalar:=S) (f0 (SF:=S)) (lit (SF:=S) 4 10)))
        /\ (is_finite v = true -> constant_mean (SF:=S) v n = v ->
            bitnet_calculate_content_complexity (SF:=S) (replicate n v) 0
              (Z.of_nat n)
            = Ok (f0 (SF:=S))
            /\ bitnet_should_apply_dithering (SF:=S) (replicate n v) 0
                 (Z.of_nat n) st
               = (st, Ok false))).
Proof.
  split.
  - intros c n st Hn.
    destruct (constant_buffer_complexity lg c n Hn) as [r [Hrun Hr]].
    split; [exists r; split; assumption|].
    unfold bitnet_should_apply_dithering, bind, gets, ret, lift.
    destruct (negb (g_dithering_initialized st)
              || negb (enable_dithering (g_dithering_config st)));
      [reflexivity|].
    rewrite Hrun. do 2 f_equal.
    apply Q_lt_false. rewrite Hr. discriminate.
  - intros lgb v n st Hn S. subst S.
    pose proof (constant_buffer_estimate (SF:=b32_scalar lgb) v n Hn
                  (b32_range_of_constant lgb v)) as Hrun.
    split; [exact Hrun|].
    intros Hv Hmean.
    assert (bitnet_calculate_content_complexity (SF:=b32_scalar lgb)
              (replicate n v) 0 (Z.of_nat n)
            = Ok (f0 (SF:=b32_scalar lgb))) as Hzero.
    { rewrite Hrun.
      now rewrite (b32_exact_mean_no_variance lgb v n Hn Hv Hmean). }
    split; [exact Hzero|].
    unfold bitnet_should_apply_dithering, bind, gets, ret, lift.
    destruct (negb (g_dithering_initialized st)
              || negb (enable_dithering (g_dithering_config st)));
      [reflexivity|].
    now rewrite Hzero.
Qed.

End ExactClaims.

(** ** Claims: closed instances in binary32 *)

Section Binary32Examples.

#[local] Existing Instance B32.

(** C3 (as stated) fails: before bitnet_dithering_init has run, with the
    flag false, bitnet_apply_ordered_dithering called with an enabled config
    still rewrites [1,1,1,1] into [0.5, 1.0, 0.625, 1.125]. *)
Lemma C3_counterexample :
  g_dithering_initialized engine_at_start = false
  /\ enable_dithering (fixed_config (lit 1 1) 4) = true
  /\ snd (bitnet_apply_ordered_dithering (ones 4) 0 4 0
            (Some (fixed_config (lit 1 1) 4)) engine_at_start)
     = Ok [lit 1 2; lit 1 1; lit 5 8; lit 9 8]
  /\ [lit 1 2; lit 1 1; lit 5 8; lit 9 8] <> ones 4.
Proof.
  repeat split.
  intros Heq. vm_compute in Heq. discriminate Heq.
Qed.

Lemma C3_witness :
  g_dithering_initialized engine_at_start = false
  /\ bitnet_apply_resolution_dithering (ones 4) 0 4 0 (lit 1 1)
       engine_at_start = (engine_at_start, Ok (ones 4))
  /\ bitnet_enhance_resolution_dithering (ones 4) 0 4 1 0 engine_at_start
     = (engine_at_start, Ok (ones 4))
  /\ snd (bitnet_apply_ordered_dithering (ones 4) 0 4 0
            (Some (fixed_config (lit 1 1) 4))
            (with_initialized true engine_at_start))
     = snd (bitnet_apply_ordered_dithering (ones 4) 0 4 0
              (Some (fixed_config (lit 1 1) 4)) engine_at_start).
Proof.
  split; [reflexivity|].
  exact (C3_uninitialized_engine_gates spec_float B32 engine_at_start
           eq_refl (ones 4) 0 4 0 1 0 (lit 1 1)
           (Some (fixed_config (lit 1 1) 4)) true).
Defined.

(** C5 (as stated) fails: with the engine initialized and
    resolution_enhancement on but enable_dithering off, the call with
    size 8, sequence length 2, hidden size 4 leaves the eight elements as
    they were, where the claim has both segments dithered. *)
Lemma C5_counterexample :
  g_dithering_initialized disabled_engine = true
  /\ resolution_enhancement (g_dithering_config disabled_engine) = true
  /\ Z.quot 8 4 = 2
  /\ bitnet_enhance_resolution_dithering (ones 8) 0 8 2 4 disabled_engine
     = (disabled_engine, Ok (ones 8))
  /\ ones 8 <> segment_dithered BAYER_8X8 (lit 5 100) 0 8 4 (ones 8).
Proof.
  repeat split.
  intros Heq. vm_compute in Heq. discriminate Heq.
Qed.

Lemma C5_witness :
  g_dithering_initialized fixed_engine = true
  /\ bitnet_enhance_resolution_dithering (ones 8) 0 8 2 4 fixed_engine
     = (fixed_engine,
        Ok (segment_dithered BAYER_8X8 (lit 5 100) 0 8 4 (ones 8)))
  /\ segment_dithered BAYER_8X8 (lit 5 100) 0 8 4 (ones 8)
     = map (fun n => fadd (lit 1 1)
                       (fmul (fsub (lit n 64) (lit 5 10)) (lit 5 100)))
         [0; 32; 8; 40; 0; 32; 8; 40]
  /\ enable_dithering (g_dithering_config disabled_engine) = false
  /\ bitnet_enhance_resolution_dithering (ones 8) 0 8 2 4 disabled_engine
     = (disabled_engine, Ok (ones 8)).
Proof.
  assert (0 < 4) as Hh by lia.
  assert (0 <= 2) as Hseq by lia.
  assert (8 <= INT_MAX) as Hmax by (int_bounds; lia).
  assert (0 <= 0) as Hact by lia.
  assert (0 + 8 <= Z.of_nat (length (ones 8))) as Hfit by (simpl; lia).
  split; [reflexivity|]. split.
  { exact (proj1 (C5_enhance_dithers_each_token spec_float B32 fixed_engine
                    (ones 8) 0 8 2 4 eq_refl eq_refl Hh Hseq eq_refl Hmax)
             eq_refl eq_refl Hact Hfit). }
  split; [vm_compute; reflexivity|]. split; [reflexivity|].
  exact (proj2 (C5_enhance_dithers_each_token spec_float B32 disabled_engine
                  (ones 8) 0 8 2 4 eq_refl eq_refl Hh Hseq eq_refl Hmax)
           eq_refl).
Defined.


(** C6 (the code departs from it): the loop advances by a fixed
    hidden_size and always passes a full hidden_size-long segment.  With
    nine elements, sequence length 2 and hidden size 4 (9 / 4 = 2), the
    third round starts at index 8 and runs over indices 8..11 of a
    nine-element buffer; and a zero hidden size reaches the division
    unguarded. *)
Theorem C6_enhance_overruns_on_remainder :
  bitnet_enhance_resolution_dithering (ones 9) 0 9 2 4
    engine_after_init = (engine_after_init, Fault OutOfBounds)
  /\ bitnet_enhance_resolution_dithering (ones 9) 0 9 2 4
       fixed_engine = (fixed_engine, Fault OutOfBounds)
  /\ bitnet_enhance_resolution_dithering (ones 8) 0 8 2 0
       engine_after_init = (engine_after_init, Fault DivByZero).
Proof. repeat split; vm_compute; reflexivity. Qed.

(** C8 (as stated) fails in the arithmetic the code runs in.  Seven copies
    of 0.1f: the running sum rounds, the mean comes out one unit in the
    last place above 0.1f, every deviation is -2^-27 and the variance is
    2^-54, so the complexity is about 3.3e-17, not 0.  Seven copies of
    13421773 * 2^73 (0.1f scaled by 2^100, about 1.27e29): the squared
    deviation overflows to infinity, the complexity is infinite and
    bitnet_should_apply_dithering answers true. *)
Lemma C8_counterexample :
  bitnet_calculate_content_complexity (replicate 7 (lit 1 10)) 0 7
  = Ok (S754_finite false 10066330 (-78))
  /\ flt f0 (S754_finite false 10066330 (-78)) = true
  /\ bitnet_calculate_content_complexity
       (replicate 7 (S754_finite false 13421773 73)) 0 7
     = Ok (S754_infinity false)
  /\ bitnet_should_apply_dithering
       (replicate 7 (S754_finite false 13421773 73)) 0 7 engine_after_init
     = (engine_after_init, Ok true).
Proof. repeat split; vm_compute; reflexivity. Qed.

Lemma C9_witness :
  let config : BitNetDitheringConfig spec_float :=
    {| enable_dithering := false;
       dithering_strength := lit 1 1;
       bayer_matrix_size := 4;
       adaptive_strength := true;
       resolution_enhancement := true |} in
  (Some config = None
   \/ exists c, Some config = Some c /\ enable_dithering c = false)
  /\ bitnet_apply_ordered_dithering (ones 4) 0 4 7 (Some config)
       engine_after_init
     = (engine_after_init, Ok (ones 4)).
Proof.
  intros config.
  assert (Some config = None
          \/ exists c, Some config = Some c /\ enable_dithering c = false)
    as Hc by (right; exists config; split; reflexivity).
  split; [exact Hc|].
  exact (C9_null_or_disabled_config_is_noop spec_float B32 engine_after_init
           (ones 4) 0 4 7 (Some config) Hc).
Defined.

(** The three operations left out of C10 do write. *)
Example lifecycle_and_setter_write :
  fst (bitnet_dithering_init engine_at_start) <> engine_at_start
  /\ fst (bitnet_dithering_cleanup engine_after_init)
     <> engine_after_init
  /\ fst (bitnet_set_dithering_config
            (Some (fixed_config (lit 1 1) 8)) engine_after_init)
     <> engine_after_init.
Proof. repeat split; intros Heq; discriminate Heq. Qed.

(** With the config that [bitnet_dithering_init] installs
    (adaptive_strength on), the per-token pass does not use its 0.05: both
    segments of eight ones are dithered with the global 0.1 times the
    adaptive factor 0.8. *)
Example b32_enhance_at_default_config :
  bitnet_enhance_resolution_dithering (ones 8) 0 8 2 4 engine_after_init
  = (engine_after_init,
     Ok (segment_dithered BAYER_8X8 (fmul (lit 1 10) (lit 8 10)) 0 8 4
           (ones 8)))
  /\ segment_dithered BAYER_8X8 (fmul (lit 1 10) (lit 8 10)) 0 8 4 (ones 8)
     <> segment_dithered BAYER_8X8 (lit 5 100) 0 8 4 (ones 8).
Proof.
  split; [vm_compute; reflexivity|].
  intros Heq. vm_compute in Heq. discriminate Heq.
Qed.

(** The estimator and bitnet_should_apply_dithering where binary32 commits no
    rounding error: four ones, and 0, 1, 2, 3. *)
Example b32_constant_buffer_of_ones :
  bitnet_calculate_content_complexity (ones 4) 0 4 = Ok f0
  /\ bitnet_should_apply_dithering (ones 4) 0 4 engine_after_init
     = (engine_after_init, Ok false).
Proof. split; vm_compute; reflexivity. Qed.

Example b32_adaptive_strength_in_range :
  let mem := map of_int [0; 1; 2; 3] in
  exists r,
    bitnet_calculate_adaptive_strength mem 0 4 engine_after_init
    = (engine_after_init, Ok r)
    /\ SFleb (fmul (lit 5 10) (lit 1 10)) r = true
    /\ SFleb r (fmul (lit 2 1) (lit 1 10)) = true.
Proof.
  eexists. split; [vm_compute; reflexivity|].
  split; vm_compute; reflexivity.
Qed.

End Binary32Examples.

(** ** Claims: closed instances in exact arithmetic *)

Section ExactExamples.

#[local] Existing Instance Qx.

Local Open Scope Q_scope.

(** C2 (as stated) fails: on sixteen ones (one full 4x4 tile) with
    strength 1 the mean drops from 1 to 31/32, because the sixteen
    deviations (t - 0.5) add up to -1/2, not to 0. *)
Lemma C2_counterexample :
  length (ones 16 (F:=Q)) = (1 * Z.to_nat (4 * 4))%nat
  /\ (exists out,
         bitnet_ordered_dither (ones 16) 0 16 BAYER_4X4 4 (lit 1 1) = Ok out
         /\ Qmean (ones 16) == 1
         /\ Qmean out == 31 # 32
         /\ ~ Qmean out == Qmean (ones 16))
  /\ Qsum (map (fun t => t - (1 # 2)) BAYER_4X4) == - (1 # 2)
  /\ ~ Qsum (map (fun t => t - (1 # 2)) BAYER_4X4) == 0.
Proof.
  split; [reflexivity|]. split; [|split].
  - eexists. split; [vm_compute; reflexivity|].
    split; [vm_compute; reflexivity|].
    split; [vm_compute; reflexivity|].
    intros Heq. vm_compute in Heq. discriminate Heq.
  - vm_compute. reflexivity.
  - intros Heq. vm_compute in Heq. discriminate Heq.
Qed.

Lemma C2_witness :
  (4 = 4 \/ 4 = 8)%Z
  /\ length (ones 16 (F:=Q)) = (1 * Z.to_nat (4 * 4))%nat
  /\ exists out,
       bitnet_ordered_dither (ones 16) 0 16 BAYER_4X4 4 (lit 1 1) = Ok out
       /\ length out = 16%nat
       /\ Qsum out == Qsum (ones 16) - inject_Z 1 * lit 1 1 / 2
       /\ Qmean out == Qmean (ones 16) - lit 1 1 / (2 * inject_Z (4 * 4)).
Proof.
  split; [left; reflexivity|]. split; [reflexivity|].
  destruct (C2_full_tiles_shift_the_mean Q_log2_dyadic 4 (ones 16) 1
              (lit 1 1) (or_introl eq_refl) eq_refl)
    as [_ [out (Hrun & Hlen & Hsum & Hmean)]].
  exists out. split; [exact Hrun|]. split; [exact Hlen|].
  split; [exact Hsum|]. apply Hmean. lia.
Defined.

(** C4 (the code departs from it): after bitnet_dithering_init the global
    config has adaptive_strength on and strength 0.1.  Called on [1,1,1,1]
    with scale 1.0, bitnet_apply_resolution_dithering builds the transient
    config (strength := scale, pattern 8) and passes it on, but the strength
    then comes from bitnet_calculate_adaptive_strength, which reads the
    global strength: the noise applied has strength 0.1 * 0.8 and the buffer
    becomes [0.96, 1, 0.97, 1.01], where scale * 0.8 would give
    [0.6, 1, 0.7, 1.1].  The output is the same for every scale. *)
Theorem C4_resolution_dithering_at_default_config :
  (exists out,
      bitnet_apply_resolution_dithering (ones 4) 0 4 0 (lit 1 1)
        engine_after_init = (engine_after_init, Ok out)
      /\ Forall2 Qeq out [24 # 25; 1; 97 # 100; 101 # 100]%Q)
  /\ Forall2 Qeq
       (dithered BAYER_8X8 (1 * (4 # 5))%Q 0 4 (ones 4))
       [3 # 5; 1; 7 # 10; 11 # 10]%Q
  /\ (forall scale : Q,
         bitnet_apply_resolution_dithering (ones 4) 0 4 0 scale
           engine_after_init
         = bitnet_apply_resolution_dithering (ones 4) 0 4 0 (lit 1 1)
             engine_after_init).
Proof.
  split; [|split].
  - eexists. split; [vm_compute; reflexivity|]. repeat constructor.
  - repeat constructor.
  - intros scale. now apply resolution_dithering_scale_irrelevant.
Qed.


Lemma C8_witness :
  let one := lit (SF:=B32) 1 1 in
  (1 <= 7)%nat
  /\ (exists r,
         bitnet_calculate_content_complexity (replicate 7 (1 # 10)%Q) 0 7
         = Ok r /\ r == 0)
  /\ bitnet_should_apply_dithering (replicate 7 (1 # 10)%Q) 0 7
       engine_after_init = (engine_after_init, Ok false)
  /\ (1 <= 4)%nat
  /\ is_finite one = true
  /\ constant_mean (SF:=B32) one 4 = one
  /\ bitnet_calculate_content_complexity (SF:=B32) (replicate 4 one) 0 4
     = Ok (f0 (SF:=B32))
  /\ bitnet_should_apply_dithering (SF:=B32) (replicate 4 one) 0 4
       (engine_after_init (SF:=B32))
     = (engine_after_init (SF:=B32), Ok false).
Proof.
  intros one.
  assert (1 <= 7)%nat as H7 by lia.
  assert (1 <= 4)%nat as H4 by lia.
  assert (is_finite one = true) as Hfin by reflexivity.
  assert (constant_mean (SF:=B32) one 4 = one) as Hmean by reflexivity.
  split; [exact H7|].
  split; [exact (proj1 (proj1 (C8_constant_buffer_has_no_complexity
                                 Q_log2_dyadic)
                          (1 # 10)%Q 7%nat engine_after_init H7))|].
  split; [exact (proj2 (proj1 (C8_constant_buffer_has_no_complexity
                                 Q_log2_dyadic)
                          (1 # 10)%Q 7%nat engine_after_init H7))|].
  split; [exact H4|]. split; [exact Hfin|]. split; [exact Hmean|].
  exact (proj2 (proj2 (C8_constant_buffer_has_no_complexity Q_log2_dyadic)
                  b32_log2_dyadic one 4%nat (engine_after_init (SF:=B32))
                  H4)
           Hfin Hmean).
Defined.

End ExactExamples.

(** * Further properties of the engine *)

(** ** Lifecycle and configuration *)

(** One call of the public interface, with its arguments. *)
Inductive call (F : Type) : Type :=
| CallInit
| CallCleanup
| CallSetConfig (config : option (BitNetDitheringConfig F))
| CallGetConfig
| CallGetMetrics
| CallShouldApply (mem : list F) (weights size : Z)
| CallAdaptiveStrength (mem : list F) (weights size : Z)
| CallOrderedDither (mem : list F) (data size : Z) (bayer_matrix : list F)
    (matrix_size : Z) (strength : F)
| CallApplyOrdered (mem : list F) (weights size layer_idx : Z)
    (config : option (BitNetDitheringConfig F))
| CallApplyResolution (mem : list F) (weights size layer_idx : Z) (scale : F)
| CallEnhance (mem : list F)
    (activations size sequence_length hidden_size : Z).

Arguments CallInit {F}.
Arguments CallCleanup {F}.
Arguments CallSetConfig {F} config.
Arguments CallGetConfig {F}.
Arguments CallGetMetrics {F}.
Arguments CallShouldApply {F} mem weights size.
Arguments CallAdaptiveStrength {F} mem weights size.
Arguments CallOrderedDither {F} mem data size bayer_matrix matrix_size
  strength.
Arguments CallApplyOrdered {F} mem weights size layer_idx config.
Arguments CallApplyResolution {F} mem weights size layer_idx scale.
Arguments CallEnhance {F} mem activations size sequence_length hidden_size.

Section Calls.

Context {F : Type} {SF : Scalar F}.

(** The globals after one call. *)
Definition after_call (c : call F) (st : engine F) : engine F :=
  match c with
  | CallInit => fst (bitnet_dithering_init st)
  | CallCleanup => fst (bitnet_dithering_cleanup st)
  | CallSetConfig config => fst (bitnet_set_dithering_config config st)
  | CallGetConfig => fst (bitnet_get_dithering_config st)
  | CallGetMetrics => fst (bitnet_get_dithering_metrics st)
  | CallShouldApply mem weights size =>
      fst (bitnet_should_apply_dithering mem weights size st)
  | CallAdaptiveStrength mem weights size =>
      fst (bitnet_calculate_adaptive_strength mem weights size st)
  | CallOrderedDither _ _ _ _ _ _ => st
  | CallApplyOrdered mem weights size layer_idx config =>
      fst (bitnet_apply_ordered_dithering mem weights size layer_idx config
             st)
  | CallApplyResolution mem weights size layer_idx scale =>
      fst (bitnet_apply_resolution_dithering mem weights size layer_idx scale
             st)
  | CallEnhance mem activations size sequence_length hidden_size =>
      fst (bitnet_enhance_resolution_dithering mem activations size
             sequence_length hidden_size st)
  end.

Definition after_calls (cs : list (call F)) (st : engine F) : engine F :=
  fold_left (fun st c => after_call c st) cs st.

Definition is_init (c : call F) : bool :=
  match c with
  | CallInit => true
  | _ => false
  end.

(** The last [init] or [cleanup] of a sequence, if any: [true] for
    [init]. *)
Fixpoint last_lifecycle (cs : list (call F)) (seen : option bool)
    : option bool :=
  match cs with
  | [] => seen
  | CallInit :: cs' => last_lifecycle cs' (Some true)
  | CallCleanup :: cs' => last_lifecycle cs' (Some false)
  | _ :: cs' => last_lifecycle cs' seen
  end.

(** The metrics that [bitnet_dithering_init] installs. *)
Definition metrics_after_init : BitNetDitheringMetrics F :=
  g_dithering_metrics engine_after_init.

(** A call that is neither [init], [cleanup] nor [setConfig] returns the
    globals it was given. *)
Lemma after_reader (c : call F) (st : engine F) :
  match c with
  | CallInit | CallCleanup | CallSetConfig _ => True
  | _ => after_call c st = st
  end.
Proof.
  destruct c; cbn [after_call]; try exact I; try reflexivity.
  - apply preserves_should_apply.
  - apply preserves_adaptive_strength.
  - apply preserves_apply_ordered.
  - apply preserves_apply_resolution.
  - apply preserves_enhance.
Qed.

Lemma after_call_metrics (c : call F) (st : engine F) :
  g_dithering_metrics (after_call c st)
  = if is_init c && negb (g_dithering_initialized st)
    then metrics_after_init
    else g_dithering_metrics st.
Proof.
  pose proof (after_reader c st) as Hread.
  destruct c; cbn [is_init andb]; try (now rewrite Hread).
  - cbn [after_call]. unfold bitnet_dithering_init, bind, gets, ret, put.
    now destruct (g_dithering_initialized st).
  - reflexivity.
  - now destruct config.
Qed.

Lemma after_call_initialized (c : call F) (st : engine F) :
  g_dithering_initialized (after_call c st)
  = match c with
    | CallInit => true
    | CallCleanup => false
    | _ => g_dithering_initialized st
    end.
Proof.
  pose proof (after_reader c st) as Hread.
  destruct c; try (now rewrite Hread).
  - cbn [after_call]. unfold bitnet_dithering_init, bind, gets, ret, put.
    now destruct (g_dithering_initialized st) eqn:E.
  - reflexivity.
  - now destruct config.
Qed.

(** X1: bitnet_set_dithering_config followed by
    bitnet_get_dithering_config returns the config that was set, whatever
    the engine state (initialized or not); the setter leaves the metrics
    and the initialized flag alone, the last of two sets wins, and a null
    pointer changes nothing. *)
Theorem X1_set_config_get_config_round_trip :
  forall (st : engine F) (c c' : BitNetDitheringConfig F),
    let st1 := fst (bitnet_set_dithering_config (Some c) st) in
    let st2 := fst (bitnet_set_dithering_config (Some c') st1) in
    bitnet_get_dithering_config st1 = (st1, Ok c)
    /\ bitnet_get_dithering_config st2 = (st2, Ok c')
    /\ g_dithering_metrics st1 = g_dithering_metrics st
    /\ g_dithering_initialized st1 = g_dithering_initialized st
    /\ bitnet_set_dithering_config None st = (st, Ok tt).
Proof. intros st c c' st1 st2. repeat split. Qed.

(** X2: bitnet_dithering_init installs the default config and metrics only
    when the flag is off.  So cleanup followed by init always ends in the
    default engine, a second init changes nothing, a config set after init
    survives a further init, and a config set while the flag is off is
    discarded by the next init. *)
Theorem X2_init_installs_defaults_once :
  forall (st : engine F) (c : BitNetDitheringConfig F),
    let init s := fst (bitnet_dithering_init s) in
    let cleanup s := fst (bitnet_dithering_cleanup s) in
    let set s := fst (bitnet_set_dithering_config (Some c) s) in
    init (cleanup st) = engine_after_init
    /\ init (init st) = init st
    /\ g_dithering_initialized (init st) = true
    /\ init (set (init st)) = set (init st)
    /\ init (set (cleanup st)) = engine_after_init
    /\ g_dithering_config (cleanup st) = g_dithering_config st.
Proof.
  intros st c init cleanup set. subst init cleanup set.
  unfold engine_after_init, bitnet_dithering_init, bitnet_dithering_cleanup,
    bind, gets, ret, put.
  destruct st as [config metrics [|]]; cbn; repeat split.
Qed.

(** X3: from program start, whatever sequence of public calls is made, the
    metrics are the zero-initialised ones until bitnet_dithering_init has
    been called and [1, 0, 0, 0] from then on: no other operation ever
    writes them. *)
Theorem X3_metrics_only_written_by_init :
  forall cs : list (call F),
    g_dithering_metrics (after_calls cs engine_at_start)
    = if existsb is_init cs
      then metrics_after_init
      else g_dithering_metrics engine_at_start.
Proof.
  intros cs.
  assert (forall (seen : bool) (st : engine F),
             (seen = false -> g_dithering_initialized st = false) ->
             g_dithering_metrics st
             = (if seen then metrics_after_init
                else g_dithering_metrics engine_at_start) ->
             g_dithering_metrics (after_calls cs st)
             = if seen || existsb is_init cs
               then metrics_after_init
               else g_dithering_metrics engine_at_start) as Hgen.
  { induction cs as [|c cs IH]; intros seen st Hflag Hm.
    - cbn. now rewrite orb_false_r.
    - cbn [after_calls fold_left existsb].
      change (fold_left (fun st c => after_call c st) cs (after_call c st))
        with (after_calls cs (after_call c st)).
      rewrite orb_assoc. apply IH.
      + intros Hseen. apply orb_false_iff in Hseen as [-> Hc].
        rewrite after_call_initialized. specialize (Hflag eq_refl).
        destruct c; try discriminate Hc; try assumption; reflexivity.
      + rewrite after_call_metrics, Hm.
        destruct seen; cbn [orb].
        * now destruct (is_init c && negb (g_dithering_initialized st)).
        * rewrite (Hflag eq_refl). cbn [negb]. rewrite andb_true_r.
          reflexivity. }
  apply (Hgen false engine_at_start); reflexivity.
Qed.

(** X4: only bitnet_dithering_init and bitnet_dithering_cleanup write the
    initialized flag: after any sequence of public calls the flag is true
    exactly when the last of those two in the sequence was init, and is
    what it was when neither occurs. *)
Theorem X4_flag_follows_last_lifecycle_call :
  forall (cs : list (call F)) (st : engine F),
    g_dithering_initialized (after_calls cs st)
    = default (g_dithering_initialized st) (last_lifecycle cs None).
Proof.
  intros cs st.
  assert (forall (seen : option bool) (s : engine F),
             g_dithering_initialized s
             = default (g_dithering_initialized st) seen ->
             g_dithering_initialized (after_calls cs s)
             = default (g_dithering_initialized st) (last_lifecycle cs seen))
    as Hgen.
  { induction cs as [|c cs IH]; intros seen s Hs; [exact Hs|].
    cbn [after_calls fold_left].
    change (fold_left (fun st c => after_call c st) cs (after_call c s))
      with (after_calls cs (after_call c s)).
    pose proof (after_call_initialized c s) as Hc.
    destruct c; cbn [last_lifecycle]; apply IH; rewrite Hc;
      first [exact Hs | reflexivity]. }
  apply (Hgen None st). reflexivity.
Qed.

End Calls.

(** ** The applicator and its callers, in any arithmetic *)

Lemma for_range_ext {T : Type} (body1 body2 : Z -> T -> result T) :
  forall (n : nat) (i : Z) (s : T),
    (forall j t, i <= j < i + Z.of_nat n -> body1 j t = body2 j t) ->
    for_range n i body1 s = for_range n i body2 s.
Proof.
  induction n as [|n IH]; intros i s Hext; [reflexivity|].
  cbn [for_range]. rewrite (Hext i s) by lia.
  destruct (body2 i s) as [t|f]; [|reflexivity]. cbn [rbind].
  apply IH. intros j u Hj. apply Hext. lia.
Qed.

(** Two loop bodies that agree on the states satisfying an invariant of the
    second. *)
Lemma for_range_agree {T : Type} (P : T -> Prop)
    (body1 body2 : Z -> T -> result T) :
  forall (n : nat) (i : Z) (s : T),
    P s ->
    (forall j t, i <= j < i + Z.of_nat n -> P t ->
                 body1 j t = body2 j t
                 /\ forall t', body2 j t = Ok t' -> P t') ->
    for_range n i body1 s = for_range n i body2 s.
Proof.
  induction n as [|n IH]; intros i s Hs Hstep; [reflexivity|].
  cbn [for_range]. destruct (Hstep i s) as [-> Hnext]; [lia|assumption|].
  destruct (body2 i s) as [t|f]; [|reflexivity]. cbn [rbind].
  apply IH; [now apply Hnext|]. intros j u Hj. apply Hstep. lia.
Qed.

Lemma load_agree {A} (mem1 mem2 : list A) (p : Z) :
  mem1 !! Z.to_nat p = mem2 !! Z.to_nat p -> load mem1 p = load mem2 p.
Proof. intros Heq. unfold load. now rewrite Heq. Qed.

Section Applicator.

Context {F : Type} {SF : Scalar F}.

Lemma lookup_dithered table strength data size (mem : list F) (j : nat) x :
  mem !! j = Some x ->
  dithered table strength data size mem !! j
  = Some (if bool_decide (data <= Z.of_nat j < data + size)
          then fadd x (tile_noise table strength (Z.of_nat j - data))
          else x).
Proof.
  intros Hx. unfold dithered. now rewrite list_lookup_imap, Hx.
Qed.

(** When the stride is a multiple of the table length, restarting the
    pattern at every segment changes nothing. *)
Lemma segment_dithered_aligned table strength data size stride
    (mem : list F) :
  (Z.of_nat (length table) | stride) ->
  segment_dithered table strength data size stride mem
  = dithered table strength data size mem.
Proof.
  intros Hdiv. unfold segment_dithered, dithered. apply imap_ext.
  intros j x _. case_bool_decide; [|reflexivity].
  unfold tile_noise. now rewrite Z.mod_mod_divide.
Qed.

(** The per-token branch on an exact multiple (the loop of the source,
    unrolled by [enhance_loop_ok]). *)
Lemma enhance_per_token (st : engine F) (mem : list F)
    (activations size sequence_length hidden_size : Z) :
  g_dithering_initialized st = true ->
  resolution_enhancement (g_dithering_config st) = true ->
  enable_dithering (g_dithering_config st) = true ->
  adaptive_strength (g_dithering_config st) = false ->
  0 < hidden_size -> 0 <= sequence_length ->
  size = sequence_length * hidden_size -> size <= INT_MAX ->
  0 <= activations -> activations + size <= Z.of_nat (length mem) ->
  bitnet_enhance_resolution_dithering mem activations size sequence_length
    hidden_size st
  = (st, Ok (segment_dithered BAYER_8X8 (lit 5 100) activations size
               hidden_size mem)).
Proof.
  intros Hinit Hres Hen Had Hh Hseq Hsize Hmax Hact Hfit.
  unfold bitnet_enhance_resolution_dithering, bind, gets, ret, lift.
  rewrite Hinit, Hres. cbn [negb orb]. unfold int_div.
  destruct (Z.eqb_spec hidden_size 0); [lia|].
  destruct (Z.eqb_spec hidden_size (-1)); [lia|].
  rewrite andb_false_r.
  replace (Z.quot size hidden_size) with sequence_length
    by (subst size; now rewrite Z.quot_mul by lia).
  rewrite Z.eqb_refl.
  etransitivity;
    [apply enhance_loop_ok with (k := Z.to_nat sequence_length);
     try done; try lia; try nia|].
  cbn [dithering_strength]. do 2 f_equal.
  rewrite Z.add_0_r, Z.sub_0_r. reflexivity.
Qed.

(** [bitnet_ordered_dither] when [bayer_matrix] points into the array that
    also holds [data]: the table entry is read from the array as the pass
    has left it so far. *)
Definition dither_step_shared (data bayer_matrix matrix_size : Z)
    (strength : F) (i : Z) (mem : list F) : result (list F) :=
  let* q := int_div i matrix_size in
  let* row := int_rem q matrix_size in
  let* col := int_rem i matrix_size in
  let bayer_idx := row * matrix_size + col in
  let* t := load mem (bayer_matrix + bayer_idx) in
  let noise := fmul (fsub t (lit 5 10)) strength in
  let* x := load mem (data + i) in
  store mem (data + i) (fadd x noise).

Definition bitnet_ordered_dither_shared (mem : list F) (data size : Z)
    (bayer_matrix matrix_size : Z) (strength : F) : result (list F) :=
  let* matrix_area := checked (matrix_size * matrix_size) in
  for_range (Z.to_nat size) 0
    (dither_step_shared data bayer_matrix matrix_size strength) mem.

(** The [n] elements of [mem] from offset [p] on. *)
Definition slice (mem : list F) (p n : Z) : list F :=
  take (Z.to_nat n) (drop (Z.to_nat p) mem).

Lemma lookup_slice (mem : list F) (p n k : Z) :
  0 <= p -> 0 <= k < n ->
  slice mem p n !! Z.to_nat k = mem !! Z.to_nat (p + k).
Proof.
  intros Hp Hk. unfold slice.
  rewrite lookup_take_lt by lia. rewrite lookup_drop. f_equal. lia.
Qed.

Lemma length_slice (mem : list F) (p n : Z) :
  0 <= p -> 0 <= n -> p + n <= Z.of_nat (length mem) ->
  Z.of_nat (length (slice mem p n)) = n.
Proof.
  intros Hp Hn Hfit. unfold slice. rewrite length_take, length_drop. lia.
Qed.

(** While the table region is as it was, a step that reads the table from
    the array does what a step with a copy of the table does. *)
Lemma dither_step_shared_copy (table : list F) data bayer ms strength i
    (s : list F) :
  0 < ms -> 0 <= i -> 0 <= bayer ->
  (forall k, 0 <= k < ms * ms ->
             s !! Z.to_nat (bayer + k) = table !! Z.to_nat k) ->
  dither_step_shared data bayer ms strength i s
  = dither_step data table ms strength i s.
Proof.
  intros Hms Hi Hbayer Htable. unfold dither_step_shared, dither_step.
  unfold int_div, int_rem.
  destruct (Z.eqb_spec ms 0); [lia|].
  destruct (Z.eqb_spec ms (-1)); [lia|].
  rewrite andb_false_r. cbn [rbind].
  fold (bayer_index ms i). rewrite bayer_index_mod by lia.
  assert (0 <= i mod (ms * ms) < ms * ms) as Hidx
    by (apply Z.mod_pos_bound; nia).
  replace (load s (bayer + i mod (ms * ms)))
    with (load table (i mod (ms * ms))); [reflexivity|].
  unfold load.
  destruct (Z.leb_spec 0 (i mod (ms * ms))); [|lia].
  destruct (Z.leb_spec 0 (bayer + i mod (ms * ms))); [|lia].
  now rewrite Htable.
Qed.

Lemma ordered_dither_shared_copy (mem : list F) data size bayer ms strength :
  0 < ms -> 0 <= data -> 0 <= size ->
  data + size <= Z.of_nat (length mem) ->
  0 <= bayer -> bayer + ms * ms <= Z.of_nat (length mem) ->
  bayer + ms * ms <= data \/ data + size <= bayer ->
  bitnet_ordered_dither_shared mem data size bayer ms strength
  = bitnet_ordered_dither mem data size (slice mem bayer (ms * ms)) ms
      strength.
Proof.
  intros Hms Hdata Hsize Hfit Hbayer Hbfit Hapart.
  unfold bitnet_ordered_dither_shared, bitnet_ordered_dither.
  destruct (checked (ms * ms)) as [area|f]; [|reflexivity]. cbn [rbind].
  set (table := slice mem bayer (ms * ms)).
  assert (Z.of_nat (length table) = ms * ms) as Hlen
    by (apply length_slice; nia).
  apply (for_range_agree
           (fun s => length s = length mem
                     /\ forall k, 0 <= k < ms * ms ->
                                  s !! Z.to_nat (bayer + k)
                                  = table !! Z.to_nat k)).
  - split; [reflexivity|]. intros k Hk. symmetry. now apply lookup_slice.
  - intros j s Hj [Hslen Hs]. split.
    + apply dither_step_shared_copy; (lia || assumption).
    + intros s' Hstep.
      destruct (lookup_lt_is_Some_2 s (Z.to_nat (data + j))) as [x Hx];
        [lia|].
      rewrite (dither_step_ok table ms strength data j s x) in Hstep
        by (lia || assumption).
      injection Hstep as <-. split; [now rewrite length_insert|].
      intros k Hk. rewrite list_lookup_insert_ne by lia. now apply Hs.
Qed.

(** X5: for a square table (side matrix_size > 0, matrix_size^2 entries)
    that does not overlap the range written, and a range that lies within
    the array, bitnet_ordered_dither completes, keeps the length, leaves
    every element outside [data, data + size) as it was, and adds
    (table[d mod matrix_size^2] - 0.5) * strength to the element at
    distance d from data: the row/column index of the source is the flat
    index modulo the table length.  The table is either an array of its
    own, or the matrix_size^2 elements at bayer_matrix in the array that
    holds the data, apart from [data, data + size); in the second case the
    pass is the one with a copy of the table taken before the call. *)
Theorem X5_ordered_dither_tiles_the_table :
  forall (mem : list F) (data size matrix_size : Z) (strength : F),
    0 < matrix_size -> in_int (matrix_size * matrix_size) = true ->
    0 <= data -> 0 <= size -> data + size <= Z.of_nat (length mem) ->
    (forall table : list F,
        Z.of_nat (length table) = matrix_size * matrix_size ->
        exists out,
          bitnet_ordered_dither mem data size table matrix_size strength
          = Ok out
          /\ length out = length mem
          /\ forall (j : nat) (x : F),
               mem !! j = Some x ->
               out !! j
               = Some (if bool_decide (data <= Z.of_nat j < data + size)
                       then fadd x
                              (fmul
                                 (fsub
                                    (default f0
                                       (table !! Z.to_nat
                                          ((Z.of_nat j - data)
                                           mod (matrix_size * matrix_size))))
                                    (lit 5 10))
                                 strength)
                       else x))
    /\ (forall bayer_matrix : Z,
          0 <= bayer_matrix ->
          bayer_matrix + matrix_size * matrix_size <= Z.of_nat (length mem) ->
          (bayer_matrix + matrix_size * matrix_size <= data
           \/ data + size <= bayer_matrix) ->
          bitnet_ordered_dither_shared mem data size bayer_matrix matrix_size
            strength
          = bitnet_ordered_dither mem data size
              (slice mem bayer_matrix (matrix_size * matrix_size))
              matrix_size strength
          /\ exists out,
               bitnet_ordered_dither_shared mem data size bayer_matrix
                 matrix_size strength
               = Ok out
               /\ length out = length mem
               /\ forall (j : nat) (x : F),
                    mem !! j = Some x ->
                    out !! j
                    = Some (if bool_decide
                                 (data <= Z.of_nat j < data + size)
                            then fadd x
                                   (fmul
                                      (fsub
                                         (default f0
                                            (mem !! Z.to_nat
                                               (bayer_matrix
                                                + (Z.of_nat j - data)
                                                  mod (matrix_size
                                                       * matrix_size))))
                                         (lit 5 10))
                                      strength)
                            else x)).
Proof.
  intros mem data size ms strength Hms Harea Hdata Hsize Hfit.
  assert (forall table : list F,
             Z.of_nat (length table) = ms * ms ->
             forall (j : nat) (x : F),
               mem !! j = Some x ->
               dithered table strength data size mem !! j
               = Some (if bool_decide (data <= Z.of_nat j < data + size)
                       then fadd x
                              (fmul
                                 (fsub
                                    (default f0
                                       (table !! Z.to_nat
                                          ((Z.of_nat j - data)
                                           mod (ms * ms))))
                                    (lit 5 10))
                                 strength)
                       else x)) as Hspec.
  { intros table Hlen j x Hx. rewrite (lookup_dithered _ _ _ _ _ _ x Hx).
    unfold tile_noise. now rewrite Hlen. }
  split.
  - intros table Hlen.
    exists (dithered table strength data size mem).
    split; [now apply ordered_dither_ok|].
    split; [apply length_dithered|]. now apply Hspec.
  - intros bayer Hbayer Hbfit Hapart.
    assert (Z.of_nat (length (slice mem bayer (ms * ms))) = ms * ms) as Hlen
      by (apply length_slice; nia).
    rewrite ordered_dither_shared_copy by assumption.
    split; [reflexivity|].
    exists (dithered (slice mem bayer (ms * ms)) strength data size mem).
    split; [now apply ordered_dither_ok|].
    split; [apply length_dithered|].
    intros j x Hx. rewrite (Hspec _ Hlen j x Hx).
    case_bool_decide; [|reflexivity].
    rewrite lookup_slice; [reflexivity|assumption|].
    apply Z.mod_pos_bound. nia.
Qed.

(** X6: bitnet_ordered_dither does not clip its range: when the array ends
    before data + size (the start itself being inside), the pass runs over
    the end. *)
Theorem X6_ordered_dither_does_not_clip :
  forall (mem : list F) (data size : Z) (table : list F) (matrix_size : Z)
         (strength : F),
    0 < matrix_size -> in_int (matrix_size * matrix_size) = true ->
    Z.of_nat (length table) = matrix_size * matrix_size ->
    0 <= data <= Z.of_nat (length mem) ->
    Z.of_nat (length mem) < data + size ->
    bitnet_ordered_dither mem data size table matrix_size strength
    = Fault OutOfBounds.
Proof. intros. now apply ordered_dither_overrun. Qed.

(** X7: matrix_size is a divisor in the index computation and is not
    checked: bitnet_ordered_dither with matrix_size 0 divides by zero as
    soon as there is one element to process, whatever the array and the
    table. *)
Theorem X7_ordered_dither_zero_matrix_size :
  forall (mem : list F) (data size : Z) (table : list F) (strength : F),
    0 < size ->
    bitnet_ordered_dither mem data size table 0 strength = Fault DivByZero.
Proof.
  intros mem data size table strength Hsize.
  unfold bitnet_ordered_dither. cbn [rbind checked Z.mul in_int].
  destruct (Z.to_nat size) as [|n] eqn:Hn; [lia|].
  reflexivity.
Qed.

(** X8: the configured pattern size only distinguishes 8 from everything
    else: with any bayer_matrix_size other than 8 (0, negative, 16, ...)
    bitnet_apply_ordered_dithering does what it does with 4. *)
Theorem X8_pattern_size_falls_back_to_4 :
  forall (st : engine F) (mem : list F) (weights size layer_idx : Z)
         (config : BitNetDitheringConfig F),
    bayer_matrix_size config <> 8 ->
    bitnet_apply_ordered_dithering mem weights size layer_idx (Some config)
      st
    = bitnet_apply_ordered_dithering mem weights size layer_idx
        (Some {| enable_dithering := enable_dithering config;
                 dithering_strength := dithering_strength config;
                 bayer_matrix_size := 4;
                 adaptive_strength := adaptive_strength config;
                 resolution_enhancement := resolution_enhancement config |})
        st.
Proof.
  intros st mem weights size layer_idx config Hne.
  unfold bitnet_apply_ordered_dithering.
  cbn [enable_dithering adaptive_strength bayer_matrix_size
       dithering_strength].
  destruct (Z.eqb_spec (bayer_matrix_size config) 8); [contradiction|].
  reflexivity.
Qed.

(** X9: with the engine initialized, resolution_enhancement and
    enable_dithering on and adaptive_strength off,
    bitnet_apply_resolution_dithering on a range within the array adds
    (BAYER_8X8[d mod 64] - 0.5) * scale at distance d, whatever pattern
    size and strength the global config holds. *)
Theorem X9_resolution_dithering_uses_scale_and_8x8 :
  forall (st : engine F) (mem : list F) (weights size layer_idx : Z)
         (scale : F),
    g_dithering_initialized st = true ->
    resolution_enhancement (g_dithering_config st) = true ->
    enable_dithering (g_dithering_config st) = true ->
    adaptive_strength (g_dithering_config st) = false ->
    0 <= weights -> 0 <= size -> weights + size <= Z.of_nat (length mem) ->
    bitnet_apply_resolution_dithering mem weights size layer_idx scale st
    = (st, Ok (dithered BAYER_8X8 scale weights size mem)).
Proof.
  intros st mem weights size layer_idx scale Hinit Hres Hen Had Hw Hs Hfit.
  unfold bitnet_apply_resolution_dithering, bind, gets, ret.
  rewrite Hinit, Hres. cbn [negb orb].
  now rewrite apply_ordered_fixed.
Qed.

(** X10: when hidden_size is a multiple of 64 (the 8x8 table length), the
    per-token pass of bitnet_enhance_resolution_dithering is one pass over
    the whole buffer: restarting the pattern at each token changes nothing,
    and the result is what bitnet_apply_ordered_dithering gives on the
    whole range with strength 0.05 and pattern 8. *)
Theorem X10_aligned_tokens_are_one_pass :
  forall (st : engine F) (mem : list F)
         (activations size sequence_length hidden_size layer_idx : Z),
    g_dithering_initialized st = true ->
    resolution_enhancement (g_dithering_config st) = true ->
    enable_dithering (g_dithering_config st) = true ->
    adaptive_strength (g_dithering_config st) = false ->
    0 < hidden_size -> (64 | hidden_size) -> 0 <= sequence_length ->
    size = sequence_length * hidden_size -> size <= INT_MAX ->
    0 <= activations -> activations + size <= Z.of_nat (length mem) ->
    bitnet_enhance_resolution_dithering mem activations size sequence_length
      hidden_size st
    = (st, Ok (dithered BAYER_8X8 (lit 5 100) activations size mem))
    /\ bitnet_enhance_resolution_dithering mem activations size
         sequence_length hidden_size st
       = bitnet_apply_ordered_dithering mem activations size layer_idx
           (Some (fixed_config (lit 5 100) 8)) st.
Proof.
  intros st mem activations size sequence_length hidden_size layer_idx
    Hinit Hres Hen Had Hh Hdiv Hseq Hsize Hmax Hact Hfit.
  assert (0 <= size) by nia.
  rewrite enhance_per_token by assumption.
  rewrite segment_dithered_aligned by exact Hdiv.
  split; [reflexivity|].
  now rewrite apply_ordered_fixed.
Qed.

(** X11: every size that is not a multiple of hidden_size but passes the
    token-count test (sequence_length * hidden_size < size <
    (sequence_length + 1) * hidden_size) makes the per-token loop of
    bitnet_enhance_resolution_dithering run past a buffer of exactly size
    elements (enabled, non-adaptive global config). *)
Theorem X11_enhance_overruns_on_every_remainder :
  forall (st : engine F) (mem : list F)
         (activations size sequence_length hidden_size : Z),
    g_dithering_initialized st = true ->
    resolution_enhancement (g_dithering_config st) = true ->
    enable_dithering (g_dithering_config st) = true ->
    adaptive_strength (g_dithering_config st) = false ->
    0 < hidden_size -> 0 <= sequence_length ->
    sequence_length * hidden_size < size
    < (sequence_length + 1) * hidden_size ->
    size <= INT_MAX ->
    0 <= activations -> activations + size = Z.of_nat (length mem) ->
    bitnet_enhance_resolution_dithering mem activations size sequence_length
      hidden_size st
    = (st, Fault OutOfBounds).
Proof. intros. now apply enhance_overruns_on_any_remainder. Qed.

(** The estimator with nothing to read. *)
Lemma complexity_of_nothing (mem : list F) (weights size : Z) :
  size <= 0 -> bitnet_calculate_content_complexity mem weights size = Ok f0.
Proof.
  intros Hs. unfold bitnet_calculate_content_complexity.
  now destruct (Z.leb_spec size 0); [|lia].
Qed.

(** X12: a size of zero or less makes every buffer operation a no-op that
    never touches the buffer, whatever the pointer, the config (adaptive or
    not) and the engine state: bitnet_apply_ordered_dithering and
    bitnet_apply_resolution_dithering return the buffer as it was, and so
    does bitnet_enhance_resolution_dithering unless its division faults
    (hidden_size 0, or INT_MIN / -1). *)
Theorem X12_nothing_to_do_on_empty_ranges :
  forall (st : engine F) (mem : list F)
         (p size layer_idx sequence_length hidden_size : Z) (scale : F)
         (config : option (BitNetDitheringConfig F)),
    size <= 0 ->
    bitnet_apply_ordered_dithering mem p size layer_idx config st
    = (st, Ok mem)
    /\ bitnet_apply_resolution_dithering mem p size layer_idx scale st
       = (st, Ok mem)
    /\ (hidden_size <> 0 -> ~ (size = INT_MIN /\ hidden_size = -1) ->
        bitnet_enhance_resolution_dithering mem p size sequence_length
          hidden_size st = (st, Ok mem)).
Proof.
  intros st mem p size layer_idx sequence_length hidden_size scale config
    Hsize.
  assert (forall l c, bitnet_apply_ordered_dithering mem p size l c st
                      = (st, Ok mem)) as Happly.
  { intros l [c|]; [|reflexivity].
    unfold bitnet_apply_ordered_dithering,
      bitnet_calculate_adaptive_strength, bind, gets, ret, lift.
    rewrite complexity_of_nothing by assumption.
    destruct (enable_dithering c); [|reflexivity]. cbn [negb].
    destruct (adaptive_strength c);
      [destruct (adaptive_strength (g_dithering_config st))|];
      cbn [negb]; destruct (bayer_matrix_size c =? 8);
      now rewrite ordered_dither_empty. }
  split; [apply Happly|]. split.
  - unfold bitnet_apply_resolution_dithering, bind, gets, ret.
    destruct (negb (g_dithering_initialized st) || _); [reflexivity|].
    apply Happly.
  - intros Hh Hmin.
    unfold bitnet_enhance_resolution_dithering, bind, gets, ret, lift.
    destruct (negb (g_dithering_initialized st) || _); [reflexivity|].
    unfold int_div. destruct (Z.eqb_spec hidden_size 0); [contradiction|].
    destruct ((size =? INT_MIN) && (hidden_size =? -1)) eqn:E.
    { apply andb_true_iff in E as [E1 E2].
      apply Z.eqb_eq in E1, E2. tauto. }
    destruct (Z.quot size hidden_size =? sequence_length).
    + replace (Z.to_nat size) with O by lia. cbn [enhance_loop].
      now destruct (Z.ltb_spec 0 size); [lia|].
    + apply Happly.
Qed.

(** X13: the estimator reads the [size] elements from [weights] on and
    nothing else: two arrays that agree there get the same complexity, the
    same answer from bitnet_should_apply_dithering and the same adaptive
    strength. *)
Theorem X13_estimator_reads_only_its_range :
  forall (st : engine F) (mem1 mem2 : list F) (weights size : Z),
    (forall k, 0 <= k < size ->
               mem1 !! Z.to_nat (weights + k) = mem2 !! Z.to_nat (weights + k)) ->
    bitnet_calculate_content_complexity mem1 weights size
    = bitnet_calculate_content_complexity mem2 weights size
    /\ bitnet_should_apply_dithering mem1 weights size st
       = bitnet_should_apply_dithering mem2 weights size st
    /\ bitnet_calculate_adaptive_strength mem1 weights size st
       = bitnet_calculate_adaptive_strength mem2 weights size st.
Proof.
  intros st mem1 mem2 weights size Hagree.
  assert (bitnet_calculate_content_complexity mem1 weights size
          = bitnet_calculate_content_complexity mem2 weights size) as Heq.
  { unfold bitnet_calculate_content_complexity.
    destruct (Z.leb_spec size 0) as [|Hpos]; [reflexivity|].
    assert (forall j, 0 <= j < size ->
                      load mem1 (weights + j) = load mem2 (weights + j))
      as Hload by (intros j Hj; apply load_agree, Hagree, Hj).
    rewrite (for_range_ext (mean_step mem1 weights) (mean_step mem2 weights))
      by (intros j t Hj; unfold mean_step; rewrite Hload by lia; reflexivity).
    destruct (for_range _ 0 (mean_step mem2 weights) f0) as [sum|];
      [|reflexivity].
    cbn [rbind].
    rewrite (for_range_ext (variance_step mem1 weights _)
               (variance_step mem2 weights (fdiv sum (of_int size))))
      by (intros j t Hj; unfold variance_step; rewrite Hload by lia;
          reflexivity).
    destruct (for_range _ 0 (variance_step mem2 weights _) f0) as [sq|];
      [|reflexivity].
    cbn [rbind].
    replace (load mem1 weights) with (load mem2 weights)
      by (rewrite <- (Z.add_0_r weights); symmetry; apply Hload; lia).
    destruct (load mem2 weights) as [w0|]; [|reflexivity]. cbn [rbind].
    rewrite (for_range_ext (minmax_step mem1 weights)
               (minmax_step mem2 weights))
      by (intros j t Hj; unfold minmax_step; rewrite Hload by lia;
          reflexivity).
    destruct (for_range _ 1 (minmax_step mem2 weights) (w0, w0)) as [mm|];
      [|reflexivity].
    cbn [rbind].
    rewrite (for_range_ext (histogram_step mem1 weights _ _)
               (histogram_step mem2 weights (fst mm)
                  (fsub (snd mm) (fst mm))))
      by (intros j t Hj; unfold histogram_step; rewrite Hload by lia;
          reflexivity).
    reflexivity. }
  split; [exact Heq|].
  unfold bitnet_should_apply_dithering, bitnet_calculate_adaptive_strength.
  now rewrite Heq.
Qed.

End Applicator.

(** ** The estimator and the applicator in exact arithmetic *)

(** Population variance, as the design document defines it. *)
Definition Qvariance (l : list Q) : Q :=
  (Qsum (map (fun x => (x - Qmean l) * (x - Qmean l)) l)
   / inject_Z (Z.of_nat (length l)))%Q.

(** What is asked of [std::log2] below: it is not positive on (0, 1]. *)
Definition log2_nonpositive (lg : Q -> Q) : Prop :=
  forall p : Q, (0 < p)%Q -> (p <= 1)%Q -> (lg p <= 0)%Q.

Lemma Qsum_map_ext (f g : Q -> Q) (l : list Q) :
  (forall x, f x == g x)%Q -> (Qsum (map f l) == Qsum (map g l))%Q.
Proof.
  intros Hfg. induction l as [|x l IH]; simpl; [reflexivity|].
  now rewrite IH, Hfg.
Qed.

Lemma Qsum_nonneg (l : list Q) :
  Forall (fun x => 0 <= x)%Q l -> (0 <= Qsum l)%Q.
Proof.
  induction 1 as [|x l Hx _ IH]; simpl; [apply Qle_refl|].
  replace 0%Q with (0 + 0)%Q by reflexivity. now apply Qplus_le_compat.
Qed.

Lemma Qsquare_nonneg (q : Q) : (0 <= q * q)%Q.
Proof.
  destruct q as [n d]. unfold Qle, Qmult. cbn [Qnum Qden]. nia.
Qed.

Lemma Q_log2_dyadic_nonpositive : log2_nonpositive Q_log2_dyadic.
Proof.
  intros [n d] Hpos Hle. unfold Q_log2_dyadic. cbn [Qnum Qden].
  unfold Qlt, Qle in *. cbn [Qnum Qden] in *.
  assert (Z.log2 n <= Z.log2 (Z.pos d))%Z as Hlog
    by (apply Z.log2_le_mono; lia).
  rewrite Zle_Qle in Hlog.
  change (inject_Z (Z.log2 n) - inject_Z (Z.log2 (Z.pos d)) <= 0)%Q.
  lra.
Qed.

Section EstimatorBounds.

Variable lg : Q -> Q.
Hypothesis lg_nonpositive : log2_nonpositive lg.

#[local] Hint Extern 0 (Scalar Q) => exact (Q_scalar lg)
  : typeclass_instances.

Local Open Scope Q_scope.

Lemma entropy_step_grows (size : Z) (e : Q) (count : Z) :
  (0 < size)%Z -> (0 <= count <= size)%Z -> e <= entropy_step size e count.
Proof.
  intros Hsize Hcount. unfold entropy_step.
  destruct (Z.ltb_spec 0 count) as [Hpos|_]; [|apply Qle_refl].
  change (e <= e - inject_Z count / inject_Z size
                   * lg (inject_Z count / inject_Z size)).
  assert (0 < inject_Z size) as Hs by (unfold Qlt; simpl; lia).
  assert (0 < inject_Z count / inject_Z size) as Hp.
  { apply Qlt_shift_div_l; [assumption|].
    unfold Qlt; simpl; lia. }
  assert (inject_Z count / inject_Z size <= 1) as Hp1.
  { apply Qle_shift_div_r; [assumption|].
    unfold Qle; simpl; lia. }
  pose proof (lg_nonpositive _ Hp Hp1) as Hlg.
  assert (inject_Z count / inject_Z size
          * lg (inject_Z count / inject_Z size) <= 0) as Hprod.
  { rewrite <- (Qmult_0_r (inject_Z count / inject_Z size)).
    apply Qmult_le_l; assumption. }
  lra.
Qed.

Lemma entropy_nonneg (size : Z) (histogram : list Z) :
  (0 < size)%Z -> Forall (fun c => 0 <= c <= size)%Z histogram ->
  forall e, 0 <= e -> 0 <= fold_left (entropy_step size) histogram e.
Proof.
  intros Hsize Hh. induction Hh as [|c h Hc _ IH]; intros e He; [exact He|].
  cbn [fold_left]. apply IH.
  eapply Qle_trans; [exact He|]. now apply entropy_step_grows.
Qed.

Section Range.

Variables (mem : list Q) (weights size : Z).
Hypothesis weights_nonneg : (0 <= weights)%Z.
Hypothesis size_fits : (weights + size <= Z.of_nat (length mem))%Z.

Lemma variance_loop_nonneg (mean : Q) (n : nat) :
  (Z.of_nat n <= size)%Z ->
  exists sq,
    for_range n 0 (variance_step mem weights mean) f0 = Ok sq /\ 0 <= sq.
Proof.
  intros Hn.
  destruct (for_range_invariant (fun (_ : Z) (s : Q) => 0 <= s)
              (variance_step mem weights mean) n 0 f0) as [sq [Hrun Hsq]].
  - apply Qle_refl.
  - intros j t Hj Ht. unfold variance_step.
    destruct (load_in_bounds mem (weights + j)) as [x [_ ->]]; [lia|].
    cbn [rbind]. eexists. split; [reflexivity|].
    change (0 <= t + (x - mean) * (x - mean)).
    pose proof (Qsquare_nonneg (x - mean)). lra.
  - eauto.
Qed.

(** The histogram never counts more than it has seen. *)
Lemma histogram_loop_counts (mm : Q * Q) (n : nat) :
  (Z.of_nat n <= size)%Z -> encloses mem weights size mm ->
  flt f0 (fsub (snd mm) (fst mm)) = true ->
  exists histogram,
    for_range n 0
      (histogram_step mem weights (fst mm) (fsub (snd mm) (fst mm)))
      (replicate (Z.to_nat bins) 0%Z) = Ok histogram
    /\ Forall (fun c => 0 <= c <= Z.of_nat n)%Z histogram.
Proof.
  intros Hn Hmm Hrange. apply Q_lt_spec in Hrange.
  destruct mm as [mn mx]. cbn [fst snd] in *.
  change (0 < mx - mn) in Hrange.
  destruct (for_range_invariant
              (fun (j : Z) (h : list Z) =>
                 length h = Z.to_nat bins
                 /\ Forall (fun c => 0 <= c <= j)%Z h)
              (histogram_step mem weights mn (fsub mx mn)) n 0
              (replicate (Z.to_nat bins) 0%Z)) as [h [Hrun [_ Hh]]].
  - split; [apply length_replicate|].
    apply Forall_replicate. lia.
  - intros j h Hj [Hlen Hcounts]. unfold histogram_step.
    destruct (load_in_bounds mem (weights + j)) as [x [Hx ->]]; [lia|].
    cbn [rbind].
    destruct (Hmm j x) as [Hlo Hhi]; [lia|assumption|]. cbn [fst snd] in *.
    destruct (Q_to_int_bin
                (fmul (fdiv (fsub x mn) (fsub mx mn)) (of_int (bins - 1))))
      as [z [Hcast Hz]].
    { change ((0 <= (x - mn) / (mx - mn) * 31
               /\ (x - mn) / (mx - mn) * 31 <= 31)).
      assert (0 <= (x - mn) / (mx - mn)) as Ht0
        by (apply Qle_shift_div_l; [assumption|lra]).
      assert ((x - mn) / (mx - mn) <= 1) as Ht1
        by (apply Qle_shift_div_r; [assumption|lra]).
      split; lra. }
    change (to_int (fmul (fdiv (fsub x mn) (fsub mx mn)) (of_int (bins - 1))))
      with (Q_to_int
              (fmul (fdiv (fsub x mn) (fsub mx mn)) (of_int (bins - 1)))).
    rewrite Hcast.
    assert (0 <= Z.max 0 (Z.min (bins - 1) z) < Z.of_nat (length h))%Z
      as Hbin by (rewrite Hlen; unfold bins; lia).
    destruct (load_in_bounds h _ Hbin) as [count [Hcount ->]]. cbn [rbind].
    rewrite store_Some by assumption.
    eexists. split; [reflexivity|]. split; [now rewrite length_insert|].
    pose proof (Forall_lookup_1 _ _ _ _ Hcounts Hcount) as Hc.
    apply Forall_insert; [|cbn beta in *; lia].
    eapply Forall_impl; [exact Hcounts|]. cbn beta. intros c Hcj. lia.
  - exists h. split; [assumption|]. now rewrite Z.add_0_l in Hh.
Qed.

(** The estimator's value, split as the source computes it: the sum of
    squared deviations from the computed mean, and an entropy that is not
    negative. *)
Lemma complexity_split :
  (0 < size)%Z ->
  exists sum sq e,
    for_range (Z.to_nat size) 0 (mean_step mem weights) f0 = Ok sum
    /\ for_range (Z.to_nat size) 0
         (variance_step mem weights (sum / inject_Z size)) f0 = Ok sq
    /\ 0 <= sq /\ 0 <= e
    /\ bitnet_calculate_content_complexity mem weights size
       = Ok (sq / inject_Z size * lit 6 10 + e * lit 4 10).
Proof.
  intros Hsize. unfold bitnet_calculate_content_complexity.
  destruct (Z.leb_spec size 0) as [|_]; [lia|].
  destruct (mean_loop_total lg mem weights size weights_nonneg size_fits
              (Z.to_nat size) f0) as [sum Hsum]; [lia|].
  rewrite Hsum. cbn [rbind].
  destruct (variance_loop_nonneg (fdiv sum (of_int size)) (Z.to_nat size))
    as [sq [Hsq Hsq0]]; [lia|].
  rewrite Hsq. cbn [rbind].
  destruct (load_in_bounds mem weights) as [w0 [Hw0 ->]]; [lia|].
  cbn [rbind].
  destruct (minmax_loop_total lg mem weights size weights_nonneg size_fits
              w0 Hsize Hw0) as [mm [-> Hmm]].
  cbn [rbind].
  assert (exists h,
             (if flt f0 (fsub (snd mm) (fst mm))
              then for_range (Z.to_nat size) 0
                     (histogram_step mem weights (fst mm)
                        (fsub (snd mm) (fst mm)))
                     (replicate (Z.to_nat bins) 0%Z)
              else Ok (replicate (Z.to_nat bins) 0%Z)) = Ok h
             /\ Forall (fun c => 0 <= c <= size)%Z h) as [h [-> Hh]].
  { destruct (flt f0 (fsub (snd mm) (fst mm))) eqn:Hrange.
    - destruct (histogram_loop_counts mm (Z.to_nat size)) as [h [Hrun Hh]];
        [lia|assumption|assumption|].
      exists h. split; [assumption|].
      eapply Forall_impl; [exact Hh|]. cbn beta. intros c Hc. lia.
    - eexists. split; [reflexivity|]. apply Forall_replicate. lia. }
  cbn [rbind].
  exists sum, sq, (fold_left (entropy_step size) h f0).
  split; [reflexivity|]. split; [exact Hsq|]. split; [exact Hsq0|].
  split; [|reflexivity].
  apply entropy_nonneg; [assumption|assumption|apply Qle_refl].
Qed.

Lemma complexity_nonneg :
  exists c,
    bitnet_calculate_content_complexity mem weights size = Ok c /\ 0 <= c.
Proof.
  destruct (Z.leb_spec size 0) as [Hle|Hpos].
  - exists f0. split; [|apply Qle_refl].
    unfold bitnet_calculate_content_complexity.
    now destruct (Z.leb_spec size 0); [|lia].
  - destruct (complexity_split Hpos) as (sum & sq & e & _ & _ & Hsq & He & ->).
    eexists. split; [reflexivity|].
    assert (0 < inject_Z size) as Hs by (unfold Qlt; simpl; lia).
    assert (0 <= sq / inject_Z size)
      by (apply Qle_shift_div_l; [assumption|lra]).
    assert (lit 6 10 == 6 # 10) as -> by reflexivity.
    assert (lit 4 10 == 4 # 10) as -> by reflexivity.
    nra.
Qed.

End Range.

End EstimatorBounds.

Section ExactProperties.

Variable lg : Q -> Q.

#[local] Hint Extern 0 (Scalar Q) => exact (Q_scalar lg)
  : typeclass_instances.

Local Open Scope Q_scope.

Lemma load_whole (buf : list Q) (j : Z) :
  (0 <= j < Z.of_nat (length buf))%Z ->
  exists x, buf !! Z.to_nat j = Some x /\ load buf (0 + j) = Ok x.
Proof.
  intros Hj. rewrite Z.add_0_l. now apply load_in_bounds.
Qed.

Lemma Qsum_take_S (buf : list Q) (j : Z) (x : Q) :
  (0 <= j)%Z -> buf !! Z.to_nat j = Some x ->
  forall f : Q -> Q,
    Qsum (map f (take (Z.to_nat (j + 1)) buf))
    == Qsum (map f (take (Z.to_nat j) buf)) + f x.
Proof.
  intros Hj Hx f.
  replace (Z.to_nat (j + 1)) with (S (Z.to_nat j)) by lia.
  rewrite (take_S_r _ _ _ Hx), map_app, Qsum_app. simpl. ring.
Qed.

(** The first loop of the estimator computes the sum of the buffer, the
    second the sum of the squared deviations from the mean it was given. *)
Lemma mean_loop_sum (buf : list Q) :
  exists sum,
    for_range (length buf) 0 (mean_step buf 0) f0 = Ok sum
    /\ sum == Qsum buf.
Proof.
  destruct (for_range_invariant
              (fun j (s : Q) => s == Qsum (map id (take (Z.to_nat j) buf)))
              (mean_step buf 0) (length buf) 0 f0) as [sum [Hrun Hsum]].
  - reflexivity.
  - intros j t Hj Ht. unfold mean_step.
    destruct (load_whole buf j) as [x [Hx ->]]; [lia|]. cbn [rbind].
    eexists. split; [reflexivity|].
    rewrite (Qsum_take_S buf j x) by (lia || assumption).
    change (t + x == Qsum (map id (take (Z.to_nat j) buf)) + x).
    now rewrite Ht.
  - exists sum. split; [assumption|].
    rewrite Hsum, Z.add_0_l, Nat2Z.id, firstn_all, map_id. reflexivity.
Qed.

Lemma variance_loop_sum (buf : list Q) (mean : Q) :
  exists sq,
    for_range (length buf) 0 (variance_step buf 0 mean) f0 = Ok sq
    /\ sq == Qsum (map (fun x => (x - mean) * (x - mean)) buf).
Proof.
  destruct (for_range_invariant
              (fun j (s : Q) =>
                 s == Qsum (map (fun x => (x - mean) * (x - mean))
                              (take (Z.to_nat j) buf)))
              (variance_step buf 0 mean) (length buf) 0 f0)
    as [sq [Hrun Hsq]].
  - reflexivity.
  - intros j t Hj Ht. unfold variance_step.
    destruct (load_whole buf j) as [x [Hx ->]]; [lia|]. cbn [rbind].
    eexists. split; [reflexivity|].
    rewrite (Qsum_take_S buf j x) by (lia || assumption).
    change (t + (x - mean) * (x - mean)
            == Qsum (map (fun x => (x - mean) * (x - mean))
                       (take (Z.to_nat j) buf)) + (x - mean) * (x - mean)).
    now rewrite Ht.
  - exists sq. split; [assumption|].
    rewrite Hsq, Z.add_0_l, Nat2Z.id, firstn_all. reflexivity.
Qed.

Lemma Qvariance_nonneg (buf : list Q) : 0 <= Qvariance buf.
Proof.
  unfold Qvariance.
  assert (0 <= Qsum (map (fun x => (x - Qmean buf) * (x - Qmean buf)) buf))
    as Hsum.
  { apply Qsum_nonneg. apply Forall_forall. intros y Hy.
    apply list_elem_of_In, in_map_iff in Hy as [x [<- _]].
    apply Qsquare_nonneg. }
  destruct buf as [|b buf]; [discriminate|].
  apply Qle_shift_div_l; [unfold Qlt; simpl; lia|].
  now rewrite Qmult_0_l.
Qed.

Lemma lit_values :
  lit 6 10 == 6 # 10 /\ lit 4 10 == 4 # 10 /\ lit 2 100 == 2 # 100
  /\ lit 1 10 == 1 # 10 /\ lit 1 1 == 1 /\ lit 2 1 == 2 /\ lit 5 10 == 1 # 2.
Proof. repeat split. Qed.

(** With a [log2] that is not positive on (0, 1], the estimator's value on
    a whole buffer is at least six tenths of the population variance. *)
Lemma complexity_dominates_variance (buf : list Q) :
  log2_nonpositive lg -> (1 <= length buf)%nat ->
  exists c,
    bitnet_calculate_content_complexity buf 0 (Z.of_nat (length buf)) = Ok c
    /\ (6 # 10) * Qvariance buf <= c.
Proof.
  intros Hlg Hlen.
  destruct (complexity_split lg Hlg buf 0 (Z.of_nat (length buf)))
    as (sum & sq & e & Hsum & Hsq & _ & He & Hc); try lia.
  rewrite Nat2Z.id in Hsum, Hsq.
  destruct (mean_loop_sum buf) as [sum' [Hsum' Esum]].
  rewrite Hsum in Hsum'. injection Hsum' as <-.
  destruct (variance_loop_sum buf (sum / inject_Z (Z.of_nat (length buf))))
    as [sq' [Hsq' Esq]].
  rewrite Hsq in Hsq'. injection Hsq' as <-.
  eexists. split; [exact Hc|].
  assert (sq / inject_Z (Z.of_nat (length buf)) == Qvariance buf) as Hvar.
  { unfold Qvariance. rewrite Esq.
    apply Qmult_comp; [|reflexivity].
    apply Qsum_map_ext. intros x.
    assert (sum / inject_Z (Z.of_nat (length buf)) == Qmean buf) as ->
      by (unfold Qmean; now rewrite Esum).
    reflexivity. }
  destruct lit_values as (E6 & E4 & _).
  rewrite E6, E4, Hvar. lra.
Qed.

(** X14: in exact arithmetic, with a log2 that is not positive on (0, 1],
    the estimator completes on every non-empty buffer and its value is at
    least 0.6 times the population variance of the buffer (which is not
    negative): the first two loops compute the mean and the variance, and
    the entropy term never subtracts. *)
Theorem X14_complexity_is_at_least_the_variance_share :
  forall buf : list Q,
    log2_nonpositive lg -> (1 <= length buf)%nat ->
    exists c,
      bitnet_calculate_content_complexity buf 0 (Z.of_nat (length buf))
      = Ok c
      /\ (6 # 10) * Qvariance buf <= c
      /\ 0 <= Qvariance buf.
Proof.
  intros buf Hlg Hlen.
  destruct (complexity_dominates_variance buf Hlg Hlen) as [c [Hc Hvar]].
  exists c. split; [exact Hc|]. split; [exact Hvar|].
  apply Qvariance_nonneg.
Qed.

(** X15: in exact arithmetic, with a log2 that is not positive on (0, 1],
    adaptive_strength on and a global strength base >= 0, the complexity is
    never negative, so the adaptive factor 1 + (complexity - 0.1) * 2 is at
    least 0.8 and the lower clamp 0.5 is never reached:
    bitnet_calculate_adaptive_strength returns a value in
    [0.8 * base, 2 * base]. *)
Theorem X15_adaptive_strength_never_below_four_fifths :
  forall (st : engine Q) (mem : list Q) (weights size : Z),
    log2_nonpositive lg ->
    (0 <= weights)%Z -> (weights + size <= Z.of_nat (length mem))%Z ->
    adaptive_strength (g_dithering_config st) = true ->
    0 <= dithering_strength (g_dithering_config st) ->
    exists r,
      bitnet_calculate_adaptive_strength mem weights size st = (st, Ok r)
      /\ (8 # 10) * dithering_strength (g_dithering_config st) <= r
      /\ r <= 2 * dithering_strength (g_dithering_config st).
Proof.
  intros st mem weights size Hlg Hw Hfit Ha Hbase.
  destruct (complexity_nonneg lg Hlg mem weights size Hw Hfit)
    as [c [Hc Hc0]].
  unfold bitnet_calculate_adaptive_strength, bind, gets, ret, lift.
  rewrite Ha, Hc. cbn [negb].
  eexists. split; [reflexivity|].
  change (fmul ?a ?b) with (a * b).
  rewrite (clamp_as_written lg).
  set (base := dithering_strength (g_dithering_config st)) in *.
  set (x := fadd (lit 1 1) (fsub c (lit 1 10) * lit 2 1)).
  assert (x == 1 + (c - (1 # 10)) * 2) as Hx
    by (subst x; change (1 / 1 + (c - 1 / 10) * (2 / 1)
                         == 1 + (c - (1 # 10)) * 2); field).
  assert ((8 # 10) <= Qclamp x (1 # 2) 2 <= 2) as [Hlo Hhi].
  { unfold Qclamp.
    destruct (Qlt_le_dec x (1 # 2)); [lra|].
    destruct (Qlt_le_dec 2 x); lra. }
  split.
  - rewrite (Qmult_comm base). apply Qmult_le_compat_r; assumption.
  - rewrite (Qmult_comm base). apply Qmult_le_compat_r; assumption.
Qed.

(** X16: in exact arithmetic, with a log2 that is not positive on (0, 1],
    an initialized engine with enable_dithering on answers true from
    bitnet_should_apply_dithering for every buffer whose population
    variance exceeds 1/30 (0.6 * variance already passes the 0.02
    threshold). *)
Theorem X16_should_apply_on_spread_buffers :
  forall (st : engine Q) (buf : list Q),
    log2_nonpositive lg ->
    g_dithering_initialized st = true ->
    enable_dithering (g_dithering_config st) = true ->
    (1 <= length buf)%nat -> 1 # 30 < Qvariance buf ->
    bitnet_should_apply_dithering buf 0 (Z.of_nat (length buf)) st
    = (st, Ok true).
Proof.
  intros st buf Hlg Hinit Hen Hlen Hvar.
  destruct (complexity_dominates_variance buf Hlg Hlen) as [c [Hc Hdom]].
  unfold bitnet_should_apply_dithering, bind, gets, ret, lift.
  rewrite Hinit, Hen, Hc. cbn [negb orb]. do 2 f_equal.
  apply Q_lt_spec.
  destruct lit_values as (_ & _ & E2 & _). rewrite E2. lra.
Qed.

(** *** The applicator as a map *)

Lemma tile_bias_bounded (table : list Q) (j : nat) :
  Forall (fun t => 0 <= t <= 1) table ->
  - (1 # 2) <= tile_bias table j <= 1 # 2.
Proof.
  intros Htable. unfold tile_bias.
  assert (inject_Z 5 / inject_Z 10 == 1 # 2) as -> by reflexivity.
  destruct (table !! Z.to_nat (Z.of_nat j mod Z.of_nat (length table)))
    as [t|] eqn:Ht; cbn [default from_option id].
  - pose proof (Forall_lookup_1 _ _ _ _ Htable Ht) as [H0 H1].
    split; lra.
  - split; lra.
Qed.

Lemma BAYER_entries_in_unit_interval :
  Forall (fun t => 0 <= t <= 1) (BAYER_4X4 (F:=Q))
  /\ Forall (fun t => 0 <= t <= 1) (BAYER_8X8 (F:=Q)).
Proof.
  split; apply Forall_forall; intros t Ht;
    apply list_elem_of_In in Ht; simpl in Ht;
    repeat (destruct Ht as [<-|Ht]; [split; discriminate|]);
    contradiction.
Qed.

(** X17: in exact arithmetic a pass of bitnet_ordered_dither with either
    built-in table and strength s >= 0 moves no element by more than s / 2:
    every element of the result lies within s / 2 of the element it
    replaces (and is equal to it outside the range). *)
Theorem X17_noise_is_at_most_half_the_strength :
  forall (mem : list Q) (data size : Z) (ms : Z) (strength : Q),
    (ms = 4 \/ ms = 8)%Z -> 0 <= strength ->
    (0 <= data)%Z -> (0 <= size)%Z ->
    (data + size <= Z.of_nat (length mem))%Z ->
    let table := if (ms =? 8)%Z then BAYER_8X8 else BAYER_4X4 in
    exists out,
      bitnet_ordered_dither mem data size table ms strength = Ok out
      /\ forall (j : nat) (x y : Q),
           mem !! j = Some x -> out !! j = Some y ->
           x - strength / 2 <= y <= x + strength / 2.
Proof.
  intros mem data size ms strength Hms Hs Hdata Hsize Hfit table.
  assert (Z.of_nat (length table) = (ms * ms)%Z
          /\ Forall (fun t => 0 <= t <= 1) table) as [Hlen Htable].
  { destruct BAYER_entries_in_unit_interval as [H4 H8].
    destruct Hms as [-> | ->]; subst table; cbn [Z.eqb Pos.eqb];
      (split; [reflexivity|assumption]). }
  exists (dithered table strength data size mem). split.
  - apply ordered_dither_ok; try lia.
    destruct Hms as [-> | ->]; reflexivity.
  - intros j x y Hx Hy.
    rewrite (lookup_dithered _ _ _ _ _ _ x Hx) in Hy. injection Hy as <-.
    assert (strength / 2 == (1 # 2) * strength) as -> by field.
    case_bool_decide as Hj; [|split; lra].
    replace (Z.of_nat j - data)%Z with (Z.of_nat (Z.to_nat (Z.of_nat j - data)))
      by lia.
    change (x - (1 # 2) * strength
            <= x + tile_bias table (Z.to_nat (Z.of_nat j - data)) * strength
            <= x + (1 # 2) * strength).
    pose proof (tile_bias_bounded table (Z.to_nat (Z.of_nat j - data)) Htable)
      as [Hlo Hhi].
    set (b := tile_bias table (Z.to_nat (Z.of_nat j - data))) in *.
    assert (- (1 # 2) * strength <= b * strength) as Hlo'
      by (apply Qmult_le_compat_r; assumption).
    assert (b * strength <= (1 # 2) * strength) as Hhi'
      by (apply Qmult_le_compat_r; assumption).
    set (p := b * strength) in *.
    split; lra.
Qed.

(** X18: in exact arithmetic two passes of bitnet_ordered_dither with
    either built-in table over the same range with strengths s1 and s2
    give, element by element, what one pass with s1 + s2 gives; in
    particular a pass with -s undoes a pass with s.  This is a property of
    exact arithmetic only: in binary32, on sixteen elements 1.0 with the
    4x4 table, a pass with 0.1f followed by a pass with -0.1f does not
    give the buffer back. *)
Theorem X18_passes_add_up_and_cancel :
  (forall (mem : list Q) (data size ms : Z) (s1 s2 : Q),
      (ms = 4 \/ ms = 8)%Z ->
      (0 <= data)%Z -> (0 <= size)%Z ->
      (data + size <= Z.of_nat (length mem))%Z ->
      let table := if (ms =? 8)%Z then BAYER_8X8 else BAYER_4X4 in
      exists out1 out2 out12 back,
        bitnet_ordered_dither mem data size table ms s1 = Ok out1
        /\ bitnet_ordered_dither out1 data size table ms s2 = Ok out2
        /\ bitnet_ordered_dither mem data size table ms (s1 + s2) = Ok out12
        /\ bitnet_ordered_dither out1 data size table ms (- s1) = Ok back
        /\ Forall2 Qeq out2 out12
        /\ Forall2 Qeq back mem)
  /\ (exists out1 back : list spec_float,
        bitnet_ordered_dither (SF:=B32) (ones (SF:=B32) 16) 0 16
          (BAYER_4X4 (SF:=B32)) 4 (lit (SF:=B32) 1 10) = Ok out1
        /\ bitnet_ordered_dither (SF:=B32) out1 0 16 (BAYER_4X4 (SF:=B32)) 4
             (SFopp (lit (SF:=B32) 1 10)) = Ok back
        /\ back <> ones (SF:=B32) 16).
Proof.
  split.
  - intros mem data size ms s1 s2 Hms Hdata Hsize Hfit table.
    assert (0 < ms /\ in_int (ms * ms) = true
            /\ Z.of_nat (length table) = ms * ms)%Z as (Hpos & Harea & Hlen)
      by (destruct Hms as [-> | ->]; subst table; repeat split).
    exists (dithered table s1 data size mem),
      (dithered table s2 data size (dithered table s1 data size mem)),
      (dithered table (s1 + s2) data size mem),
      (dithered table (- s1) data size (dithered table s1 data size mem)).
    repeat split;
      try (apply ordered_dither_ok; rewrite ?length_dithered; assumption).
    + apply Forall2_same_length_lookup_2; [now rewrite !length_dithered|].
      intros j y z Hy Hz.
      destruct (lookup_lt_is_Some_2 mem j) as [x Hx].
      { apply lookup_lt_Some in Hz. now rewrite length_dithered in Hz. }
      rewrite (lookup_dithered _ _ _ _ _ _ x Hx) in Hz.
      rewrite (lookup_dithered _ _ _ _ _ _ _
                 (lookup_dithered _ _ _ _ _ _ x Hx)) in Hy.
      injection Hy as <-. injection Hz as <-.
      case_bool_decide; [|reflexivity].
      unfold tile_noise. ring.
    + apply Forall2_same_length_lookup_2; [now rewrite !length_dithered|].
      intros j y x Hy Hx.
      rewrite (lookup_dithered _ _ _ _ _ _ _
                 (lookup_dithered _ _ _ _ _ _ x Hx)) in Hy.
      injection Hy as <-.
      case_bool_decide; [|reflexivity].
      unfold tile_noise. ring.
  - eexists. eexists. split; [vm_compute; reflexivity|].
    split; [vm_compute; reflexivity|].
    intros Heq. vm_compute in Heq. discriminate Heq.
Qed.

End ExactProperties.

(** ** Strength zero in binary32 *)

Definition is_zero (x : spec_float) : bool :=
  match x with
  | S754_zero _ => true
  | _ => false
  end.

Lemma b32_zero_noise (lg : spec_float -> spec_float) (s : bool) :
  let S := b32_scalar lg in
  Forall (fun t => exists b,
              fmul (Scalar:=S) (fsub (Scalar:=S) t (lit (SF:=S) 5 10)) (S754_zero s)
              = S754_zero b)
    (f0 (SF:=S) :: BAYER_4X4 (SF:=S) ++ BAYER_8X8 (SF:=S)).
Proof.
  intros S.
  assert (forallb
            (fun t => is_zero (fmul (Scalar:=S)
                                 (fsub (Scalar:=S) t (lit (SF:=S) 5 10))
                                 (S754_zero s)))
            (f0 (SF:=S) :: BAYER_4X4 (SF:=S) ++ BAYER_8X8 (SF:=S)) = true)
    as Hall by (destruct s; vm_compute; reflexivity).
  rewrite forallb_forall in Hall.
  apply Forall_forall. intros t Ht. apply list_elem_of_In in Ht.
  specialize (Hall t Ht).
  destruct (fmul (fsub t (lit 5 10)) (S754_zero s)) as [b| | |];
    try discriminate Hall.
  now exists b.
Qed.

Definition is_nan (x : spec_float) : bool :=
  match x with
  | S754_nan => true
  | _ => false
  end.

Lemma b32_add_zero (x : spec_float) (b : bool) :
  let y := SFadd b32_prec b32_emax x (S754_zero b) in
  (is_nan x = true -> is_nan y = true)
  /\ (is_zero x = true -> is_zero y = true)
  /\ (is_nan x = false -> is_zero x = false -> y = x).
Proof.
  destruct x as [[|]|s| |s m e], b; cbn; repeat split; congruence.
Qed.

(** X19: in binary32, a pass of bitnet_ordered_dither with either built-in
    table and strength +0 or -0 completes and returns every finite
    non-zero element and every infinity unchanged: each noise term is a
    signed zero.  A zero stays a zero (its sign may change) and a NaN
    stays a NaN; the float model has a single NaN, so nothing is said of
    its payload or signalling bit. *)
Theorem X19_zero_strength_keeps_binary32_values :
  forall (lg : spec_float -> spec_float) (mem : list spec_float)
         (data size ms : Z) (s : bool),
    ms = 4 \/ ms = 8 ->
    0 <= data -> 0 <= size -> data + size <= Z.of_nat (length mem) ->
    let S := b32_scalar lg in
    let table := if ms =? 8 then BAYER_8X8 (SF:=S) else BAYER_4X4 (SF:=S) in
    exists out,
      bitnet_ordered_dither (SF:=S) mem data size table ms (S754_zero s)
      = Ok out
      /\ length out = length mem
      /\ forall (j : nat) (x : spec_float),
           mem !! j = Some x ->
           exists y,
             out !! j = Some y
             /\ (is_nan x = true -> is_nan y = true)
             /\ (is_zero x = true -> is_zero y = true)
             /\ (is_nan x = false -> is_zero x = false -> y = x).
Proof.
  intros lg mem data size ms s Hms Hdata Hsize Hfit S table.
  exists (dithered (SF:=S) table (S754_zero s) data size mem).
  assert (Z.of_nat (length table) = ms * ms) as Hlen
    by (destruct Hms as [-> | ->]; reflexivity).
  split.
  { apply ordered_dither_ok; try lia.
    destruct Hms as [-> | ->]; reflexivity. }
  split; [apply length_dithered|].
  intros j x Hx. rewrite (lookup_dithered _ _ _ _ _ _ x Hx).
  case_bool_decide; [|exists x; repeat split; congruence].
  assert (exists b, tile_noise (SF:=S) table (S754_zero s)
                      (Z.of_nat j - data) = S754_zero b) as [b ->].
  { unfold tile_noise.
    pose proof (b32_zero_noise lg s) as Hall. cbv zeta in Hall.
    rewrite Forall_forall in Hall. apply Hall.
    destruct (table !! Z.to_nat ((Z.of_nat j - data)
                                 mod Z.of_nat (length table)))
      as [t|] eqn:Ht; cbn [default from_option id].
    - apply elem_of_cons. right. apply list_elem_of_lookup_2 in Ht.
      apply elem_of_app. subst table.
      destruct Hms as [-> | ->]; cbn [Z.eqb Pos.eqb] in Ht; auto.
    - apply elem_of_cons. now left. }
  eexists. split; [reflexivity|]. apply (b32_add_zero x b).
Qed.

(** ** Instances of the further properties *)

Section FurtherBinary32.

#[local] Existing Instance B32.

Lemma X5_witness :
  let mem := BAYER_4X4 ++ ones 4 in
  0 < 4 /\ 0 <= 2 /\ 0 <= 17 /\ 2 + 17 <= Z.of_nat (length (ones 20))
  /\ (exists out,
         bitnet_ordered_dither (ones 20) 2 17 BAYER_4X4 4 (lit 1 10) = Ok out
         /\ length out = length (ones 20)
         /\ out !! 1%nat = Some (lit 1 1)
         /\ out !! 19%nat = Some (lit 1 1))
  /\ 16 + 4 <= Z.of_nat (length mem)
  /\ (0 + 4 * 4 <= 16 \/ 16 + 4 <= 0)
  /\ bitnet_ordered_dither_shared mem 16 4 0 4 (lit 1 1)
     = bitnet_ordered_dither mem 16 4 (slice mem 0 (4 * 4)) 4 (lit 1 1)
  /\ exists out,
       bitnet_ordered_dither_shared mem 16 4 0 4 (lit 1 1) = Ok out
       /\ out !! 0%nat = Some f0
       /\ out !! 18%nat
          = Some (fadd (lit 1 1) (fmul (fsub (lit 2 16) (lit 5 10)) (lit 1 1))).
Proof.
  intros mem.
  assert (2 + 17 <= Z.of_nat (length (ones 20))) as Hfit by (simpl; lia).
  assert (16 + 4 <= Z.of_nat (length mem)) as Hfit' by (simpl; lia).
  assert (0 + 4 * 4 <= Z.of_nat (length mem)) as Hbfit by (simpl; lia).
  assert (0 + 4 * 4 <= 16 \/ 16 + 4 <= 0) as Hapart by (left; lia).
  assert (0 < 4) as Hms by lia.
  assert (0 <= 2) as H2 by lia.
  assert (0 <= 17) as H17 by lia.
  assert (0 <= 16) as H16 by lia.
  assert (0 <= 4) as H4 by lia.
  assert (0 <= 0) as H0 by lia.
  split; [exact Hms|]. split; [exact H2|]. split; [exact H17|].
  split; [exact Hfit|]. split.
  { destruct (proj1 (X5_ordered_dither_tiles_the_table (SF:=B32) (ones 20)
                       2 17 4 (lit 1 10) Hms eq_refl H2 H17 Hfit)
                BAYER_4X4 eq_refl) as [out [Hrun [Hlen Hout]]].
    exists out. split; [exact Hrun|]. split; [exact Hlen|].
    split; [exact (Hout 1%nat (lit 1 1) eq_refl)
           |exact (Hout 19%nat (lit 1 1) eq_refl)]. }
  split; [exact Hfit'|]. split; [exact Hapart|].
  destruct (proj2 (X5_ordered_dither_tiles_the_table (SF:=B32) mem
                     16 4 4 (lit 1 1) Hms eq_refl H16 H4 Hfit')
              0 H0 Hbfit Hapart) as [Hcopy [out [Hrun [_ Hout]]]].
  split; [exact Hcopy|].
  exists out. split; [exact Hrun|].
  split; [exact (Hout 0%nat f0 eq_refl)
         |exact (Hout 18%nat (lit 1 1) eq_refl)].
Defined.

(** Why the table must lie apart from the range: with the seventeen
    elements [BAYER_4X4 ++ [1]] dithered in place with the table read from
    their own start, element 16 uses entry 0 after the pass has rewritten
    it (0 became -0.5) and ends at 0, where a copy of the table gives
    0.5. *)
Example overlapping_table_is_read_back :
  let mem := BAYER_4X4 ++ ones 1 in
  (exists out,
      bitnet_ordered_dither_shared mem 0 17 0 4 (lit 1 1) = Ok out
      /\ out !! 0%nat = Some (SFopp (lit 1 2))
      /\ out !! 16%nat = Some f0)
  /\ (exists out,
        bitnet_ordered_dither mem 0 17 BAYER_4X4 4 (lit 1 1) = Ok out
        /\ out !! 16%nat = Some (lit 1 2)).
Proof.
  intros mem.
  split; eexists; (split; [vm_compute; reflexivity|]); repeat split.
Qed.

Lemma X6_witness :
  0 <= 8 <= Z.of_nat (length (ones 9))
  /\ Z.of_nat (length (ones 9)) < 8 + 4
  /\ bitnet_ordered_dither (ones 9) 8 4 BAYER_4X4 4 (lit 1 10)
     = Fault OutOfBounds.
Proof.
  assert (0 <= 8 <= Z.of_nat (length (ones 9))) as H1 by (simpl; lia).
  assert (Z.of_nat (length (ones 9)) < 8 + 4) as H2 by (simpl; lia).
  split; [exact H1|]. split; [exact H2|].
  apply (X6_ordered_dither_does_not_clip (SF:=B32) (ones 9) 8 4
           BAYER_4X4 4 (lit 1 10)); try reflexivity; assumption.
Defined.

Lemma X7_witness :
  0 < 1
  /\ bitnet_ordered_dither (ones 4) 0 1 BAYER_4X4 0 (lit 1 10)
     = Fault DivByZero.
Proof.
  assert (0 < 1) as H1 by lia. split; [exact H1|].
  exact (X7_ordered_dither_zero_matrix_size (SF:=B32) (ones 4) 0 1
           BAYER_4X4 (lit 1 10) H1).
Defined.

Lemma X8_witness :
  bayer_matrix_size (fixed_config (lit 1 1) 16) <> 8
  /\ bitnet_apply_ordered_dithering (ones 4) 0 4 0
       (Some (fixed_config (lit 1 1) 16)) engine_after_init
     = bitnet_apply_ordered_dithering (ones 4) 0 4 0
         (Some (fixed_config (lit 1 1) 4)) engine_after_init.
Proof.
  assert (bayer_matrix_size (fixed_config (lit 1 1) 16) <> 8) as Hne
    by (intros Heq; discriminate Heq).
  split; [exact Hne|].
  exact (X8_pattern_size_falls_back_to_4 (SF:=B32) engine_after_init
           (ones 4) 0 4 0 (fixed_config (lit 1 1) 16) Hne).
Defined.

Lemma X9_witness :
  g_dithering_initialized fixed_engine = true
  /\ bayer_matrix_size (g_dithering_config fixed_engine) = 4
  /\ bitnet_apply_resolution_dithering (ones 8) 0 8 3 (lit 1 1) fixed_engine
     = (fixed_engine, Ok (dithered BAYER_8X8 (lit 1 1) 0 8 (ones 8))).
Proof.
  split; [reflexivity|]. split; [reflexivity|].
  apply (X9_resolution_dithering_uses_scale_and_8x8 (SF:=B32)
           fixed_engine (ones 8) 0 8 3 (lit 1 1));
    try reflexivity; simpl; lia.
Defined.

Lemma X10_witness :
  (64 | 64)
  /\ bitnet_enhance_resolution_dithering (ones 128) 0 128 2 64 fixed_engine
     = (fixed_engine, Ok (dithered BAYER_8X8 (lit 5 100) 0 128 (ones 128)))
  /\ bitnet_enhance_resolution_dithering (ones 128) 0 128 2 64 fixed_engine
     = bitnet_apply_ordered_dithering (ones 128) 0 128 0
         (Some (fixed_config (lit 5 100) 8)) fixed_engine.
Proof.
  assert (64 | 64) as Hdiv by (exists 1; reflexivity).
  assert (0 < 64) as Hh by lia.
  assert (0 <= 2) as Hseq by lia.
  assert (128 <= INT_MAX) as Hmax by (int_bounds; lia).
  assert (0 <= 0) as Hact by lia.
  assert (0 + 128 <= Z.of_nat (length (ones 128))) as Hfit
    by (unfold ones; rewrite length_replicate; lia).
  split; [exact Hdiv|].
  exact (X10_aligned_tokens_are_one_pass (SF:=B32) fixed_engine
           (ones 128) 0 128 2 64 0 eq_refl eq_refl eq_refl eq_refl
           Hh Hdiv Hseq eq_refl Hmax Hact Hfit).
Defined.

Lemma X11_witness :
  2 * 4 < 9 < (2 + 1) * 4
  /\ bitnet_enhance_resolution_dithering (ones 9) 0 9 2 4 fixed_engine
     = (fixed_engine, Fault OutOfBounds).
Proof.
  assert (2 * 4 < 9 < (2 + 1) * 4) as Hrem by lia.
  split; [exact Hrem|].
  apply (X11_enhance_overruns_on_every_remainder (SF:=B32) fixed_engine
           (ones 9) 0 9 2 4);
    try reflexivity; try exact Hrem; try (int_bounds; simpl; lia).
Defined.

Lemma X12_witness :
  -3 <= 0
  /\ bitnet_apply_ordered_dithering (ones 4) 100 (-3) 0
       (Some default_config) engine_after_init
     = (engine_after_init, Ok (ones 4))
  /\ bitnet_apply_resolution_dithering (ones 4) 100 (-3) 0 (lit 1 1)
       engine_after_init
     = (engine_after_init, Ok (ones 4))
  /\ bitnet_enhance_resolution_dithering (ones 4) 100 (-3) 1 4
       engine_after_init
     = (engine_after_init, Ok (ones 4)).
Proof.
  assert (-3 <= 0) as Hs by lia. split; [exact Hs|].
  destruct (X12_nothing_to_do_on_empty_ranges (SF:=B32)
              engine_after_init (ones 4) 100 (-3) 0 1 4 (lit 1 1)
              (Some default_config) Hs) as [H1 [H2 H3]].
  split; [exact H1|]. split; [exact H2|].
  apply H3; [lia|]. intros [_ Hh]. discriminate Hh.
Defined.

Lemma X13_witness :
  let mem1 := map of_int [1; 2; 3; 9] in
  let mem2 := map of_int [1; 2; 3; 7; 5] in
  bitnet_calculate_content_complexity mem1 0 3
  = bitnet_calculate_content_complexity mem2 0 3
  /\ bitnet_should_apply_dithering mem1 0 3 engine_after_init
     = bitnet_should_apply_dithering mem2 0 3 engine_after_init.
Proof.
  intros mem1 mem2.
  destruct (X13_estimator_reads_only_its_range (SF:=B32)
              engine_after_init mem1 mem2 0 3) as [H1 [H2 _]].
  { intros k Hk.
    assert (k = 0 \/ k = 1 \/ k = 2) as [-> | [-> | ->]] by lia;
      reflexivity. }
  split; [exact H1|exact H2].
Defined.

Lemma X19_witness :
  let mem := [lit 1 10; S754_infinity true; S754_nan; S754_zero true] in
  exists out,
    bitnet_ordered_dither mem 0 4 BAYER_4X4 4 (S754_zero false) = Ok out
    /\ out !! 0%nat = Some (lit 1 10)
    /\ out !! 1%nat = Some (S754_infinity true)
    /\ (exists y, out !! 2%nat = Some y /\ is_nan y = true)
    /\ (exists y, out !! 3%nat = Some y /\ is_zero y = true).
Proof.
  intros mem.
  assert (4 = 4 \/ 4 = 8) as Hms by (left; reflexivity).
  assert (0 <= 0) as H0 by lia.
  assert (0 <= 4) as H4 by lia.
  assert (0 + 4 <= Z.of_nat (length mem)) as Hfit by (simpl; lia).
  destruct (X19_zero_strength_keeps_binary32_values b32_log2_dyadic mem 0 4 4
              false Hms H0 H4 Hfit) as [out [Hrun [_ Hout]]].
  exists out. split; [exact Hrun|].
  destruct (Hout 0%nat (lit 1 10) eq_refl) as (y0 & Hy0 & _ & _ & E0).
  destruct (Hout 1%nat (S754_infinity true) eq_refl)
    as (y1 & Hy1 & _ & _ & E1).
  destruct (Hout 2%nat S754_nan eq_refl) as (y2 & Hy2 & E2 & _).
  destruct (Hout 3%nat (S754_zero true) eq_refl) as (y3 & Hy3 & _ & E3 & _).
  rewrite (E0 eq_refl eq_refl) in Hy0. rewrite (E1 eq_refl eq_refl) in Hy1.
  split; [exact Hy0|]. split; [exact Hy1|].
  split; [exists y2; split; [exact Hy2|exact (E2 eq_refl)]|].
  exists y3. split; [exact Hy3|exact (E3 eq_refl)].
Defined.

End FurtherBinary32.

Section FurtherExact.

#[local] Existing Instance Qx.

Local Open Scope Q_scope.

Lemma X14_witness :
  let buf : list Q := [0; 1; 2; 3] in
  (1 <= length buf)%nat
  /\ Qvariance buf == 5 # 4
  /\ exists c,
       bitnet_calculate_content_complexity buf 0 4 = Ok c
       /\ (6 # 10) * Qvariance buf <= c.
Proof.
  intros buf.
  assert (1 <= length buf)%nat as Hlen by (simpl; lia).
  split; [exact Hlen|]. split; [reflexivity|].
  destruct (X14_complexity_is_at_least_the_variance_share Q_log2_dyadic buf
              Q_log2_dyadic_nonpositive Hlen) as [c [Hc [Hvar _]]].
  exists c. split; [exact Hc|exact Hvar].
Defined.

Lemma X15_witness :
  let mem : list Q := [0; 1; 2; 3] in
  adaptive_strength (g_dithering_config engine_after_init) = true
  /\ exists r,
       bitnet_calculate_adaptive_strength mem 0 4 engine_after_init
       = (engine_after_init, Ok r)
       /\ (8 # 10) * lit 1 10 <= r /\ r <= 2 * lit 1 10.
Proof.
  intros mem. split; [reflexivity|].
  apply (X15_adaptive_strength_never_below_four_fifths Q_log2_dyadic
           engine_after_init mem 0 4 Q_log2_dyadic_nonpositive).
  - lia.
  - simpl. lia.
  - reflexivity.
  - discriminate.
Defined.

Lemma X16_witness :
  let buf : list Q := [0; 1; 2; 3] in
  1 # 30 < Qvariance buf
  /\ bitnet_should_apply_dithering buf 0 4 engine_after_init
     = (engine_after_init, Ok true).
Proof.
  intros buf.
  assert (1 # 30 < Qvariance buf) as Hvar by reflexivity.
  split; [exact Hvar|].
  apply (X16_should_apply_on_spread_buffers Q_log2_dyadic engine_after_init
           buf Q_log2_dyadic_nonpositive);
    try reflexivity; try (simpl; lia); try exact Hvar.
Defined.

Lemma X17_witness :
  (4 = 4 \/ 4 = 8)%Z /\ 0 <= 1
  /\ exists out,
       bitnet_ordered_dither (ones 16) 0 16 BAYER_4X4 4 1 = Ok out
       /\ forall (j : nat) (x y : Q),
            ones 16 !! j = Some x -> out !! j = Some y ->
            x - 1 / 2 <= y <= x + 1 / 2.
Proof.
  assert (4 = 4 \/ 4 = 8)%Z as Hms by (left; reflexivity).
  assert (0 <= 1) as Hs by discriminate.
  split; [exact Hms|]. split; [exact Hs|].
  apply (X17_noise_is_at_most_half_the_strength Q_log2_dyadic (ones 16) 0 16
           4 1 Hms Hs); simpl; lia.
Defined.

Lemma X18_witness :
  (4 = 4 \/ 4 = 8)%Z
  /\ exists out1 back,
       bitnet_ordered_dither (ones 16) 0 16 BAYER_4X4 4 (3 # 10) = Ok out1
       /\ bitnet_ordered_dither out1 0 16 BAYER_4X4 4 (- (3 # 10)) = Ok back
       /\ Forall2 Qeq back (ones 16).
Proof.
  assert (4 = 4 \/ 4 = 8)%Z as Hms by (left; reflexivity).
  assert (0 <= 0)%Z as H0 by lia.
  assert (0 <= 16)%Z as H16 by lia.
  assert (0 + 16 <= Z.of_nat (length (ones (SF:=Qx) 16)))%Z as Hfit
    by (simpl; lia).
  split; [exact Hms|].
  destruct (proj1 (X18_passes_add_up_and_cancel Q_log2_dyadic) (ones 16)
              0%Z 16%Z 4%Z (3 # 10) (1 # 10) Hms H0 H16 Hfit)
    as (out1 & out2 & out12 & back & H1 & _ & _ & H4 & _ & H6).
  exists out1, back. split; [exact H1|]. split; [exact H4|exact H6].
Defined.

End FurtherExact.
